(** * Replicator-dynamics integrators of the soccer-transfer models

    Shallow embedding of [club_strategy.py] and [player_strategy.py].

    Number model: Python floats (and the integer payoffs that Python
    promotes to floats) are embedded as exact rationals [Q], compared with
    [==]; rounding is not modelled.  Python exceptions are embedded as the
    [Raises] branch of [outcome]; dictionaries as [gmap]; numpy arrays as
    [list Q] read and written by index, with Python's bounds check and
    negative indices. *)

From stdpp Require Import base option list gmap strings.
From Stdlib Require Import QArith Qminmax Lqa.

#[local] Open Scope Q_scope.

(** ** Python-level effects *)

Inductive exn : Type := KeyError | IndexError | ValueError.

Inductive outcome (A : Type) : Type :=
  | Returns (a : A)
  | Raises (e : exn).
Arguments Returns {A} a.
Arguments Raises {A} e.

#[global] Instance outcome_ret : MRet outcome := λ A a, Returns a.
#[global] Instance outcome_bind : MBind outcome := λ A B f m,
  match m with
  | Returns a => f a
  | Raises e => Raises e
  end.

(** [d[k]] on a dictionary. *)
Definition getitem {K} `{Countable K} {V} (d : gmap K V) (k : K) : outcome V :=
  match d !! k with
  | Some v => Returns v
  | None => Raises KeyError
  end.

(** Position addressed by the (possibly negative) index [i] in an array of
    length [n]. *)
Definition norm_index (n : nat) (i : Z) : outcome nat :=
  if (0 <=? i)%Z
  then (if (i <? Z.of_nat n)%Z then Returns (Z.to_nat i) else Raises IndexError)
  else (if (- Z.of_nat n <=? i)%Z then Returns (Z.to_nat (Z.of_nat n + i))
        else Raises IndexError).

(** [a[i]] as an expression. *)
Definition load (a : list Q) (i : Z) : outcome Q :=
  k ← norm_index (length a) i;
  match a !! k with
  | Some v => Returns v
  | None => Raises IndexError
  end.

(** [a[i] = v] as a statement. *)
Definition store (a : list Q) (i : Z) (v : Q) : outcome (list Q) :=
  k ← norm_index (length a) i;
  Returns (<[k:=v]> a).

(** [range(lo, hi)]. *)
Definition range (lo hi : Z) : list Z :=
  (λ k : nat, (lo + Z.of_nat k)%Z) <$> seq 0 (Z.to_nat (hi - lo)).

(** [for i in l: s = body(i, s)]. *)
Fixpoint for_each {S : Type} (l : list Z) (body : Z → S → outcome S) (s : S)
  : outcome S :=
  match l with
  | [] => Returns s
  | i :: l' => s' ← body i s; for_each l' body s'
  end.

(** ** The numpy functions the two scripts call *)

Module np.

(** [np.zeros(n)]. *)
Definition zeros (n : nat) : list Q := replicate n 0.

(** [np.clip(v, lo, hi)], that is [minimum(maximum(v, lo), hi)]. *)
Definition clip (v lo hi : Q) : Q := Qmin (Qmax v lo) hi.

(** [np.linspace(start, stop, num)] with the default [endpoint=True]:
    [num] samples [start + k*step], [step = (stop - start)/(num - 1)], the
    last one overwritten by [stop]; a negative [num] is a [ValueError]. *)
Definition linspace (start stop : Q) (num : Z) : outcome (list Q) :=
  if (num <? 0)%Z then Raises ValueError
  else
    let n := Z.to_nat num in
    let div := (num - 1)%Z in
    let delta := stop - start in
    let step := delta / inject_Z div in
    let y := (λ k : nat, inject_Z (Z.of_nat k) * step + start) <$> seq 0 n in
    Returns (if (1 <? num)%Z then <[(n - 1)%nat := stop]> y else y).

(** Elementwise [a * b] and [1 - a] on arrays of one length. *)
Definition mul (a b : list Q) : list Q := zip_with Qmult a b.
Definition rsub (c : Q) (a : list Q) : list Q := (λ v, c - v) <$> a.

End np.

(** ** club_strategy.py *)

Module Club.

Section Engine.
(** The module-level payoff dictionary, read by [replicator_dynamics]. *)
Variable payoffs : gmap (string * string) (Q * Q).

Definition replicator_dynamics (x y : Q) : outcome (Q * Q) :=
  p1 ← getitem payoffs ("Youth", "Youth");
  p2 ← getitem payoffs ("Youth", "Star");
  let saudi_youth_payoff := y * p1.1 + (1 - y) * p2.1 in
  p3 ← getitem payoffs ("Star", "Youth");
  p4 ← getitem payoffs ("Star", "Star");
  let saudi_star_payoff := y * p3.1 + (1 - y) * p4.1 in
  let saudi_avg := x * saudi_youth_payoff + (1 - x) * saudi_star_payoff in
  q1 ← getitem payoffs ("Youth", "Youth");
  q2 ← getitem payoffs ("Star", "Youth");
  let euro_youth_payoff := x * q1.2 + (1 - x) * q2.2 in
  q3 ← getitem payoffs ("Youth", "Star");
  q4 ← getitem payoffs ("Star", "Star");
  let euro_star_payoff := x * q3.2 + (1 - x) * q4.2 in
  let euro_avg := y * euro_youth_payoff + (1 - y) * euro_star_payoff in
  let dx := x * (1 - x) * (saudi_youth_payoff - saudi_avg) in
  let dy := y * (1 - y) * (euro_youth_payoff - euro_avg) in
  Returns (dx, dy).

(** Body of the [for] loop of [simulate]; the state is the pair of
    arrays [(x, y)]. *)
Definition simulate_body (dt : Q) (i : Z) (s : list Q * list Q)
  : outcome (list Q * list Q) :=
  let '(x, y) := s in
  xp ← load x (i - 1);
  yp ← load y (i - 1);
  '(dx, dy) ← replicator_dynamics xp yp;
  xp' ← load x (i - 1);
  x ← store x i (np.clip (xp' + dx * dt) 0 1);
  yp' ← load y (i - 1);
  y ← store y i (np.clip (yp' + dy * dt) 0 1);
  Returns (x, y).

Definition simulate (params : gmap string Q)
  : outcome (list Q * list Q * list Q) :=
  t_end ← getitem params "t_end";
  t ← np.linspace 0 t_end 1000;
  let x := np.zeros (length t) in
  let y := np.zeros (length t) in
  x0 ← getitem params "x0";
  y0 ← getitem params "y0";
  x ← store x 0 x0;
  y ← store y 0 y0;
  t1 ← load t 1;
  t0 ← load t 0;
  let dt := t1 - t0 in
  '(x, y) ← for_each (range 1 (Z.of_nat (length t))) (simulate_body dt) (x, y);
  Returns (t, x, y).
End Engine.

(** The payoff dictionary of the repository, (Saudi, Europe). *)
Definition payoffs : gmap (string * string) (Q * Q) :=
  {[ ("Youth", "Youth") := (4, 4);
     ("Youth", "Star") := (2, 5);
     ("Star", "Youth") := (5, 2);
     ("Star", "Star") := (1, 1) ]}.

(** The default parameter dictionary. *)
Definition params : gmap string Q :=
  {[ "x0" := 1 # 2; "y0" := 1 # 2; "t_end" := 10 ]}.

(** The four joint-proportion series that the script plots from a run:
    [x*y], [x*(1 - y)], [(1 - x)*y], [(1 - x)*(1 - y)]. *)
Definition joint_series (x y : list Q)
  : list Q * list Q * list Q * list Q :=
  (np.mul x y,
   np.mul x (np.rsub 1 y),
   np.mul (np.rsub 1 x) y,
   np.mul (np.rsub 1 x) (np.rsub 1 y)).

End Club.

(** ** player_strategy.py *)

Module Player.

Definition replicator_dynamics (x a0 d0 b pGrow mGrow : Q)
  : Q * Q * Q * Q * Q :=
  let a := a0 + pGrow * x in
  let d := d0 + mGrow * (1 - x) in
  let fP := a * x + b * (1 - x) in
  let fM := b * x + d * (1 - x) in
  (x * (1 - x) * (fP - fM), fP, fM, a, d).

(** The default parameter dictionary. *)
Definition params : gmap string Q :=
  {[ "a0" := 5 # 2; "d0" := 2; "b" := 7 # 5; "pGrow" := 1; "mGrow" := 5;
     "x0" := 3 # 5; "t_end" := 10 ]}.

(** [replicator_dynamics(xv, **{k: params[k] for k in [...]})]: the five
    coefficients are looked up in order, then the function is called. *)
Definition call_dynamics (params : gmap string Q) (xv : Q)
  : outcome (Q * Q * Q * Q * Q) :=
  a0 ← getitem params "a0";
  d0 ← getitem params "d0";
  b ← getitem params "b";
  pGrow ← getitem params "pGrow";
  mGrow ← getitem params "mGrow";
  Returns (replicator_dynamics xv a0 d0 b pGrow mGrow).

(** The arrays [x], [fP], [fM], [a], [d] of [solve_ode]. *)
Record arrays : Type := Arrays {
  arr_x : list Q;
  arr_fP : list Q;
  arr_fM : list Q;
  arr_a : list Q;
  arr_d : list Q
}.

(** Body of the [for] loop of [solve_ode]. *)
Definition solve_body (params : gmap string Q) (dt : Q) (i : Z) (s : arrays)
  : outcome arrays :=
  xp ← load (arr_x s) (i - 1);
  '(dx, vP, vM, va, vd) ← call_dynamics params xp;
  fP ← store (arr_fP s) (i - 1) vP;
  fM ← store (arr_fM s) (i - 1) vM;
  a ← store (arr_a s) (i - 1) va;
  d ← store (arr_d s) (i - 1) vd;
  xp' ← load (arr_x s) (i - 1);
  x ← store (arr_x s) i (xp' + dx * dt);
  Returns (Arrays x fP fM a d).

Definition solve_ode (params : gmap string Q)
  : outcome (list Q * list Q * list Q * list Q * list Q * list Q) :=
  t_end ← getitem params "t_end";
  t ← np.linspace 0 t_end 1000;
  let x := np.zeros (length t) in
  let fP := np.zeros (length t) in
  let fM := np.zeros (length t) in
  let a := np.zeros (length t) in
  let d := np.zeros (length t) in
  x0 ← getitem params "x0";
  x ← store x 0 x0;
  t1 ← load t 1;
  t0 ← load t 0;
  let dt := t1 - t0 in
  s ← for_each (range 1 (Z.of_nat (length t))) (solve_body params dt)
        (Arrays x fP fM a d);
  xl ← load (arr_x s) (-1);
  '(_, vP, vM, va, vd) ← call_dynamics params xl;
  fP ← store (arr_fP s) (-1) vP;
  fM ← store (arr_fM s) (-1) vM;
  a ← store (arr_a s) (-1) va;
  d ← store (arr_d s) (-1) vd;
  Returns (t, arr_x s, fP, fM, a, d).

End Player.

(** ** The per-step rules in the words of the specification *)

Module Spec.

Inductive strategy : Type := Youth | Star.

Definition name (s : strategy) : string :=
  match s with
  | Youth => "Youth"
  | Star => "Star"
  end.

(** [clamp(v, lo, hi)]. *)
Definition clamp (v lo hi : Q) : Q :=
  if Qlt_le_dec v lo then lo else if Qlt_le_dec hi v then hi else v.

Section ClubRule.
(** [payoff[A-strategy][B-strategy] = (payoffA, payoffB)]. *)
Variable payoff : strategy → strategy → Q * Q.

(** A's expected payoff from playing [s] when B plays Youth with
    probability [y]. *)
Definition payoff_A (s : strategy) (y : Q) : Q :=
  y * (payoff s Youth).1 + (1 - y) * (payoff s Star).1.

Definition average_A (x y : Q) : Q :=
  x * payoff_A Youth y + (1 - x) * payoff_A Star y.

(** The mirrored quantities for B: [x] in place of [y], the other
    payoff index. *)
Definition payoff_B (s : strategy) (x : Q) : Q :=
  x * (payoff Youth s).2 + (1 - x) * (payoff Star s).2.

Definition average_B (x y : Q) : Q :=
  y * payoff_B Youth x + (1 - y) * payoff_B Star x.

Definition rate_x (x y : Q) : Q :=
  x * (1 - x) * (payoff_A Youth y - average_A x y).

Definition rate_y (x y : Q) : Q :=
  y * (1 - y) * (payoff_B Youth x - average_B x y).

Definition next_x (dt x y : Q) : Q := clamp (x + rate_x x y * dt) 0 1.
Definition next_y (dt x y : Q) : Q := clamp (y + rate_y x y * dt) 0 1.
End ClubRule.

(** A payoff dictionary of the assumed shape: the four strategy pairs are
    its keys. *)
Definition tabulates (payoffs : gmap (string * string) (Q * Q))
    (payoff : strategy → strategy → Q * Q) : Prop :=
  ∀ a b, payoffs !! (name a, name b) = Some (payoff a b).

(** The table of section 1. *)
Definition repo_payoff (a b : strategy) : Q * Q :=
  match a, b with
  | Youth, Youth => (4, 4)
  | Youth, Star => (2, 5)
  | Star, Youth => (5, 2)
  | Star, Star => (1, 1)
  end.

(** A club parameter mapping with the three fields of section 3. *)
Definition club_params (params : gmap string Q) (x0 y0 t_end : Q) : Prop :=
  params !! "x0" = Some x0 ∧ params !! "y0" = Some y0 ∧
  params !! "t_end" = Some t_end.

(** A player parameter mapping with the seven fields of section 3. *)
Definition player_params (params : gmap string Q)
    (a0 d0 b pGrow mGrow x0 t_end : Q) : Prop :=
  params !! "a0" = Some a0 ∧ params !! "d0" = Some d0 ∧
  params !! "b" = Some b ∧ params !! "pGrow" = Some pGrow ∧
  params !! "mGrow" = Some mGrow ∧ params !! "x0" = Some x0 ∧
  params !! "t_end" = Some t_end.

(** Sample [i+1] of a club trajectory [(x, y)] is the per-step rule, with
    step [dt], applied to sample [i]. *)
Definition club_step (payoff : strategy → strategy → Q * Q) (dt : Q)
    (x y : list Q) (i : nat) : Prop :=
  ∃ xi yi xi' yi',
    x !! i = Some xi ∧ y !! i = Some yi ∧
    x !! S i = Some xi' ∧ y !! S i = Some yi' ∧
    xi' == next_x payoff dt xi yi ∧ yi' == next_y payoff dt xi yi.

(** Sample [i] of the player series carries the payoffs of section 4.2
    evaluated at [x[i]]. *)
Definition player_sample (a0 d0 b pGrow mGrow : Q)
    (x fP fM a d : list Q) (i : nat) : Prop :=
  ∃ xi fPi fMi ai di,
    x !! i = Some xi ∧ fP !! i = Some fPi ∧ fM !! i = Some fMi ∧
    a !! i = Some ai ∧ d !! i = Some di ∧
    ai == a0 + pGrow * xi ∧
    di == d0 + mGrow * (1 - xi) ∧
    fPi == ai * xi + b * (1 - xi) ∧
    fMi == b * xi + di * (1 - xi).

(** Sample [i+1] of the player state is the unclamped Euler update of
    sample [i]. *)
Definition player_step (dt : Q) (x fP fM : list Q) (i : nat) : Prop :=
  ∃ xi fPi fMi xi',
    x !! i = Some xi ∧ fP !! i = Some fPi ∧ fM !! i = Some fMi ∧
    x !! S i = Some xi' ∧
    xi' == xi + xi * (1 - xi) * (fPi - fMi) * dt.

(** Loop invariant of [simulate] before iteration [k]: both arrays keep
    their length and initial sample, and every sample below [k] follows
    from its predecessor by the rule. *)
Definition club_inv (payoff : strategy → strategy → Q * Q) (n : nat)
    (x0 y0 dt : Q) (k : nat) (s : list Q * list Q) : Prop :=
  length s.1 = n ∧ length s.2 = n ∧
  s.1 !! 0%nat = Some x0 ∧ s.2 !! 0%nat = Some y0 ∧
  ∀ i, (S i < k)%nat → club_step payoff dt s.1 s.2 i.

(** Loop invariant of [solve_ode] before iteration [k]: the five arrays
    keep their length, [x] keeps its initial sample, and every sample
    below [k - 1] carries its payoffs and is followed by its Euler
    update. *)
Definition player_inv (a0 d0 b pGrow mGrow x0 : Q) (n : nat) (dt : Q)
    (k : nat) (s : Player.arrays) : Prop :=
  length (Player.arr_x s) = n ∧ length (Player.arr_fP s) = n ∧
  length (Player.arr_fM s) = n ∧ length (Player.arr_a s) = n ∧
  length (Player.arr_d s) = n ∧
  Player.arr_x s !! 0%nat = Some x0 ∧
  ∀ i, (S i < k)%nat →
    player_sample a0 d0 b pGrow mGrow (Player.arr_x s)
      (Player.arr_fP s) (Player.arr_fM s) (Player.arr_a s)
      (Player.arr_d s) i ∧
    player_step dt (Player.arr_x s) (Player.arr_fP s) (Player.arr_fM s) i.


(** Every sample of a series lies in [[0, 1]]. *)
Definition in_unit (l : list Q) : Prop := Forall (λ v, 0 <= v <= 1) l.

(** Every sample of a series equals [c]. *)
Definition constant (c : Q) (l : list Q) : Prop := Forall (λ v, v == c) l.



End Spec.

(** ** The scripts around the engines *)

Module Script.

(** [for name in params: params[name] = sliders[name].val], on the global
    [params] dictionary in insertion order and the current slider values.
    The result is the dictionary as the loop leaves it, together with the
    exception when a slider is missing: the entries before the missing one
    are already overwritten. *)
Fixpoint refresh (params : list (string * Q)) (sliders : gmap string Q)
  : list (string * Q) * outcome () :=
  match params with
  | [] => ([], Returns ())
  | (name, v) :: rest =>
      match sliders !! name with
      | None => ((name, v) :: rest, Raises KeyError)
      | Some w =>
          let '(rest', r) := refresh rest sliders in ((name, w) :: rest', r)
      end
  end.

End Script.

Module ClubScript.

(** The default [params] in insertion order. *)
Definition params : list (string * Q) :=
  [("x0", 1 # 2); ("y0", 1 # 2); ("t_end", 10)].

(** The curves handed to [plot], in call order, each against [t]: [x],
    [1 - x], [y], [1 - y] and the four joint series. *)
Definition curves (t x y : list Q) : list (list Q * list Q) :=
  let '(j1, j2, j3, j4) := Club.joint_series x y in
  [(t, x); (t, np.rsub 1 x); (t, y); (t, np.rsub 1 y);
   (t, j1); (t, j2); (t, j3); (t, j4)].

(** [update(val)]: refresh [params] from the sliders, run [simulate], plot.
    The result is the new [params] and the curves plotted. *)
Definition update (payoffs : gmap (string * string) (Q * Q))
    (params : list (string * Q)) (sliders : gmap string Q)
  : list (string * Q) * outcome (list (list Q * list Q)) :=
  let '(params, r) := Script.refresh params sliders in
  (params,
   _ ← r;
   '(t, x, y) ← Club.simulate payoffs (list_to_map params);
   Returns (curves t x y)).

End ClubScript.

Module PlayerScript.

(** The default [params] in insertion order. *)
Definition params : list (string * Q) :=
  [("a0", 5 # 2); ("d0", 2); ("b", 7 # 5); ("pGrow", 1); ("mGrow", 5);
   ("x0", 3 # 5); ("t_end", 10)].

(** The curves handed to [plot], in call order, each against [t]: [x],
    [1 - x], [fP], [fM], [a], [d]. *)
Definition curves (t x fP fM a d : list Q) : list (list Q * list Q) :=
  [(t, x); (t, np.rsub 1 x); (t, fP); (t, fM); (t, a); (t, d)].

(** [update(val)]: refresh [params] from the sliders, run [solve_ode],
    plot. *)
Definition update (params : list (string * Q)) (sliders : gmap string Q)
  : list (string * Q) * outcome (list (list Q * list Q)) :=
  let '(params, r) := Script.refresh params sliders in
  (params,
   _ ← r;
   '(t, x, fP, fM, a, d) ← Player.solve_ode (list_to_map params);
   Returns (curves t x fP fM a d)).

End PlayerScript.

(** ** Predicates of the further properties *)

Module Laws.

(** The keys the club engine reads. *)
Definition table_keys : list (string * string) :=
  [("Youth", "Youth"); ("Youth", "Star"); ("Star", "Youth"); ("Star", "Star")].
Definition club_keys : list string := ["t_end"; "x0"; "y0"].

(** The keys the player engine reads. *)
Definition player_keys : list string :=
  ["t_end"; "x0"; "a0"; "d0"; "b"; "pGrow"; "mGrow"].

(** Every key of [ks] is in the dictionary [d]. *)
Definition has_keys {K} `{Countable K} {V} (d : gmap K V) (ks : list K)
  : Prop :=
  Forall (λ k, is_Some (d !! k)) ks.

(** Two series agree sample by sample. *)
Definition same_series (l k : list Q) : Prop := Forall2 Qeq l k.

(** The game with the two populations exchanged. *)
Definition exchange (payoff : Spec.strategy → Spec.strategy → Q * Q)
    (a b : Spec.strategy) : Q * Q :=
  ((payoff b a).2, (payoff b a).1).


(** Two state series advance together: sample [i+1] of each is a function
    of samples [i] of both, for [i < m]. *)
Definition chain (fx fy : Q → Q → Q) (x y : list Q) (m : nat) : Prop :=
  ∀ i, (i < m)%nat →
    ∃ xi yi xi' yi',
      x !! i = Some xi ∧ y !! i = Some yi ∧
      x !! S i = Some xi' ∧ y !! S i = Some yi' ∧
      xi' == fx xi yi ∧ yi' == fy xi yi.

(** A series never rises, never falls. *)
Definition nonincreasing (l : list Q) : Prop :=
  ∀ i vi vi', l !! i = Some vi → l !! S i = Some vi' → vi' <= vi.
Definition nondecreasing (l : list Q) : Prop :=
  ∀ i vi vi', l !! i = Some vi → l !! S i = Some vi' → vi <= vi'.

(** Every sample of a series lies in [[lo, hi]]. *)
Definition within (lo hi : Q) (l : list Q) : Prop :=
  Forall (λ v, lo <= v <= hi) l.

End Laws.

(** * Proofs *)

(** One step of a run: reduce the binds whose left operand is known. *)
Ltac run := cbn [mbind outcome_bind mret outcome_ret].

(** ** The embedding on concrete inputs *)

Example linspace_four :
  np.linspace 0 10 4 = Returns [0 # 3; 10 # 3; 20 # 3; 10].
Proof. reflexivity. Qed.

Example linspace_negative : np.linspace 0 10 (-1) = Raises ValueError.
Proof. reflexivity. Qed.

Example load_negative : load [1; 2; 3] (-1) = Returns 3.
Proof. reflexivity. Qed.

Example load_out_of_range : load [1; 2; 3] 3 = Raises IndexError.
Proof. reflexivity. Qed.

Example store_negative : store [1; 2; 3] (-3) 7 = Returns [7; 2; 3].
Proof. reflexivity. Qed.

Example range_1_5 : range 1 5 = [1; 2; 3; 4]%Z.
Proof. reflexivity. Qed.

(** A parameter dictionary without its fields is a [KeyError]. *)
Example club_missing_key : Club.simulate Club.payoffs ∅ = Raises KeyError.
Proof. vm_compute. reflexivity. Qed.

Example player_missing_key :
  Player.solve_ode (delete "b" Player.params) = Raises KeyError.
Proof. vm_compute. reflexivity. Qed.

(** The rates of the repository's table at [(1/4, 1/3)]. *)
Example club_dynamics_sample :
  ∃ dx dy,
    Club.replicator_dynamics Club.payoffs (1 # 4) (1 # 3) = Returns (dx, dy) ∧
    dx == 3 # 64 ∧ dy == 2 # 27.
Proof.
  do 2 eexists. split; [vm_compute; reflexivity|]. split; reflexivity.
Qed.

(** The payoffs of the player script's default dictionary at [x = 3/5]. *)
Example player_dynamics_sample :
  let '(dx, fP, fM, a, d) :=
    Player.replicator_dynamics (3 # 5) (5 # 2) 2 (7 # 5) 1 5 in
  dx == - 3 # 625 ∧ fP == 121 # 50 ∧ fM == 61 # 25 ∧ a == 31 # 10 ∧ d == 4.
Proof. vm_compute. repeat split. Qed.

(** One loop iteration of [simulate] with a step as large as 40: the
    unclamped update [1/2 + (1/8)*40] leaves the unit interval, the stored
    sample is 1. *)
Example club_body_overshoot :
  ∃ v w,
    Club.simulate_body Club.payoffs 40 1 ([1 # 2; 0], [0; 0])
    = Returns ([1 # 2; v], [0; w]) ∧
    1 < (1 # 2) + Spec.rate_x Spec.repo_payoff (1 # 2) 0 * 40 ∧
    v == 1 ∧ w == 0.
Proof.
  do 2 eexists. split; [vm_compute; reflexivity|]. repeat split.
Qed.

(** ** Indexing and loops *)

Lemma norm_index_nat (n k : nat) :
  (k < n)%nat → norm_index n (Z.of_nat k) = Returns k.
Proof.
  intros Hk. unfold norm_index.
  destruct (Z.leb_spec 0 (Z.of_nat k)); [|lia].
  destruct (Z.ltb_spec (Z.of_nat k) (Z.of_nat n)); [|lia].
  by rewrite Nat2Z.id.
Qed.

Lemma norm_index_last (n : nat) :
  (0 < n)%nat → norm_index n (-1) = Returns (n - 1)%nat.
Proof.
  intros Hn. unfold norm_index.
  destruct (Z.leb_spec 0 (-1)); [lia|].
  destruct (Z.leb_spec (- Z.of_nat n) (-1)); [|lia].
  f_equal. lia.
Qed.

Lemma load_nat (a : list Q) (k : nat) (v : Q) :
  a !! k = Some v → load a (Z.of_nat k) = Returns v.
Proof.
  intros Hv. unfold load.
  rewrite norm_index_nat by (by eapply lookup_lt_Some).
  simpl. by rewrite Hv.
Qed.

Lemma load_pred (a : list Q) (k : nat) (v : Q) :
  a !! k = Some v → load a (Z.of_nat (S k) - 1) = Returns v.
Proof.
  intros Hv. replace (Z.of_nat (S k) - 1)%Z with (Z.of_nat k) by lia.
  by apply load_nat.
Qed.

Lemma load_last (a : list Q) (v : Q) :
  a !! (length a - 1)%nat = Some v → load a (-1) = Returns v.
Proof.
  intros Hv. unfold load.
  rewrite norm_index_last by (apply lookup_lt_Some in Hv; lia).
  simpl. by rewrite Hv.
Qed.

Lemma store_nat (a : list Q) (k : nat) (v : Q) :
  (k < length a)%nat → store a (Z.of_nat k) v = Returns (<[k:=v]> a).
Proof. intros Hk. unfold store. by rewrite norm_index_nat. Qed.

Lemma store_pred (a : list Q) (k : nat) (v : Q) :
  (k < length a)%nat → store a (Z.of_nat (S k) - 1) v = Returns (<[k:=v]> a).
Proof.
  intros Hk. replace (Z.of_nat (S k) - 1)%Z with (Z.of_nat k) by lia.
  by apply store_nat.
Qed.

Lemma store_last (a : list Q) (v : Q) :
  (0 < length a)%nat → store a (-1) v = Returns (<[(length a - 1)%nat:=v]> a).
Proof. intros Hn. unfold store. by rewrite norm_index_last. Qed.

Lemma range_nil (lo hi : Z) : (hi ≤ lo)%Z → range lo hi = [].
Proof.
  intros Hle. unfold range.
  replace (Z.to_nat (hi - lo)) with 0%nat by lia. done.
Qed.

Lemma range_cons (lo hi : Z) :
  (lo < hi)%Z → range lo hi = lo :: range (lo + 1) hi.
Proof.
  intros Hlt. unfold range.
  replace (Z.to_nat (hi - lo)) with (S (Z.to_nat (hi - (lo + 1)))) by lia.
  rewrite <- cons_seq, fmap_cons, <- fmap_S_seq, <- list_fmap_compose.
  f_equal; [f_equal; lia|].
  apply list_fmap_ext. intros _ k _. simpl. lia.
Qed.

(** Invariant rule for [for i in range(lo, hi)]: an invariant that every
    iteration re-establishes, without raising, holds when the loop ends,
    and the loop does not raise. *)
Lemma for_each_range {S : Type} (I : nat → S → Prop)
    (body : Z → S → outcome S) (lo hi : nat) (s : S) :
  (lo ≤ hi)%nat →
  I lo s →
  (∀ k s0, (lo ≤ k < hi)%nat → I k s0 →
     ∃ s1, body (Z.of_nat k) s0 = Returns s1 ∧ I (Datatypes.S k) s1) →
  ∃ s', for_each (range (Z.of_nat lo) (Z.of_nat hi)) body s = Returns s' ∧
        I hi s'.
Proof.
  intros Hle. remember (hi - lo)%nat as m eqn:Hm.
  revert lo s Hle Hm. induction m as [|m IH]; intros lo s Hle Hm Hinit Hstep.
  - assert (lo = hi) as -> by lia.
    rewrite range_nil by lia. simpl. eauto.
  - rewrite range_cons by lia. simpl.
    destruct (Hstep lo s) as (s1 & -> & H1); [lia|done|]. simpl.
    replace (Z.of_nat lo + 1)%Z with (Z.of_nat (Datatypes.S lo)) by lia.
    apply IH; [lia|lia|done|].
    intros k s0 Hk. apply Hstep. lia.
Qed.

(** ** numpy facts *)

Lemma length_zeros (n : nat) : length (np.zeros n) = n.
Proof. apply length_replicate. Qed.

Lemma lookup_zeros (n k : nat) : (k < n)%nat → np.zeros n !! k = Some 0.
Proof. intros Hk. by apply lookup_replicate_2. Qed.

Lemma clip_clamp (v : Q) : np.clip v 0 1 == Spec.clamp v 0 1.
Proof.
  unfold np.clip, Spec.clamp.
  destruct (Q.max_spec v 0) as [[H1 E1]|[H1 E1]];
    destruct (Q.min_spec (Qmax v 0) 1) as [[H2 E2]|[H2 E2]];
    rewrite E2; try rewrite E1; try rewrite E1 in H2;
    destruct (Qlt_le_dec v 0); try destruct (Qlt_le_dec 1 v); lra.
Qed.

Lemma clip_bounds (v : Q) : 0 <= np.clip v 0 1 <= 1.
Proof.
  rewrite clip_clamp. unfold Spec.clamp.
  destruct (Qlt_le_dec v 0); [lra|]. destruct (Qlt_le_dec 1 v); lra.
Qed.

Lemma clip_id (v w : Q) : v == w → 0 <= w <= 1 → np.clip v 0 1 == w.
Proof.
  intros E Hw. rewrite clip_clamp. unfold Spec.clamp.
  destruct (Qlt_le_dec v 0); [lra|]. destruct (Qlt_le_dec 1 v); lra.
Qed.

#[global] Instance clamp_proper : Proper (Qeq ==> Qeq ==> Qeq ==> Qeq) Spec.clamp.
Proof.
  intros v v' Ev lo lo' El hi hi' Eh. unfold Spec.clamp.
  destruct (Qlt_le_dec v lo), (Qlt_le_dec v' lo'); try lra;
    destruct (Qlt_le_dec hi v), (Qlt_le_dec hi' v'); lra.
Qed.

(** The time grid: [num] samples, the first [num - 1] on the ramp, the last
    one the end point. *)
Lemma linspace_returns (start stop : Q) (num : Z) :
  (0 ≤ num)%Z →
  ∃ t, np.linspace start stop num = Returns t ∧
       length t = Z.to_nat num ∧
       (∀ k : nat, (Z.of_nat k < num - 1)%Z →
          t !! k = Some (inject_Z (Z.of_nat k)
                         * ((stop - start) / inject_Z (num - 1)) + start)) ∧
       ((1 < num)%Z → t !! (Z.to_nat num - 1)%nat = Some stop).
Proof.
  intros Hnum. unfold np.linspace.
  destruct (Z.ltb_spec num 0); [lia|].
  set (f := λ k : nat, inject_Z (Z.of_nat k)
                       * ((stop - start) / inject_Z (num - 1)) + start).
  assert (Hlen : length (f <$> seq 0 (Z.to_nat num)) = Z.to_nat num)
    by (by rewrite length_fmap, length_seq).
  assert (Hlk : ∀ k : nat, (k < Z.to_nat num)%nat →
            (f <$> seq 0 (Z.to_nat num)) !! k = Some (f k)).
  { intros k Hk. rewrite list_lookup_fmap, lookup_seq_lt by done. done. }
  eexists. split; [done|].
  destruct (Z.ltb_spec 1 num).
  - rewrite length_insert. split; [done|]. split.
    + intros k Hk. rewrite list_lookup_insert_ne by lia. apply Hlk. lia.
    + intros _. apply list_lookup_insert_eq. lia.
  - split; [done|]. split; [|lia].
    intros k Hk. apply Hlk. lia.
Qed.

(** ** Rational arithmetic of the two rules *)

Lemma linspace_dt (t_end : Q) :
  (inject_Z (Z.of_nat 1) * ((t_end - 0) / inject_Z (1000 - 1)) + 0)
  - (inject_Z (Z.of_nat 0) * ((t_end - 0) / inject_Z (1000 - 1)) + 0)
  == t_end / 999.
Proof.
  change (inject_Z (Z.of_nat 1)) with 1.
  change (inject_Z (Z.of_nat 0)) with 0.
  change (inject_Z (1000 - 1)) with 999.
  field.
Qed.

#[global] Instance next_x_proper payoff :
  Proper (Qeq ==> Qeq ==> Qeq ==> Qeq) (Spec.next_x payoff).
Proof.
  intros dt dt' Ed x x' Ex y y' Ey.
  unfold Spec.next_x, Spec.rate_x, Spec.average_A, Spec.payoff_A.
  by rewrite Ed, Ex, Ey.
Qed.

#[global] Instance next_y_proper payoff :
  Proper (Qeq ==> Qeq ==> Qeq ==> Qeq) (Spec.next_y payoff).
Proof.
  intros dt dt' Ed x x' Ex y y' Ey.
  unfold Spec.next_y, Spec.rate_y, Spec.average_B, Spec.payoff_B.
  by rewrite Ed, Ex, Ey.
Qed.

(** ** The club engine *)

Section ClubRun.
Context (payoffs : gmap (string * string) (Q * Q)).
Context (payoff : Spec.strategy → Spec.strategy → Q * Q).
Hypothesis Htab : Spec.tabulates payoffs payoff.

Lemma getitem_payoffs (a b : Spec.strategy) :
  getitem payoffs (Spec.name a, Spec.name b) = Returns (payoff a b).
Proof. unfold getitem. by rewrite Htab. Qed.

(** The dictionary lookups of [replicator_dynamics] succeed and its two
    results are the rates of the rule. *)
Lemma club_dynamics_returns (x y : Q) :
  ∃ dx dy, Club.replicator_dynamics payoffs x y = Returns (dx, dy) ∧
           dx == Spec.rate_x payoff x y ∧ dy == Spec.rate_y payoff x y.
Proof.
  unfold Club.replicator_dynamics.
  pose proof (getitem_payoffs Spec.Youth Spec.Youth) as HYY.
  pose proof (getitem_payoffs Spec.Youth Spec.Star) as HYS.
  pose proof (getitem_payoffs Spec.Star Spec.Youth) as HSY.
  pose proof (getitem_payoffs Spec.Star Spec.Star) as HSS.
  cbn [Spec.name] in HYY, HYS, HSY, HSS.
  rewrite HYY, HYS, HSY, HSS. simpl. do 2 eexists. split; [done|].
  unfold Spec.rate_x, Spec.rate_y, Spec.average_A, Spec.average_B,
    Spec.payoff_A, Spec.payoff_B.
  split; ring.
Qed.

Lemma club_body_step (n : nat) (x0 y0 dt dt' : Q) (k : nat)
    (s : list Q * list Q) :
  dt == dt' → (1 ≤ k < n)%nat → Spec.club_inv payoff n x0 y0 dt' k s →
  ∃ s1, Club.simulate_body payoffs dt (Z.of_nat k) s = Returns s1 ∧
        Spec.club_inv payoff n x0 y0 dt' (S k) s1.
Proof.
  intros Edt Hk (Hlx & Hly & Hx0 & Hy0 & Hsteps).
  destruct s as [x y]; simpl in *.
  destruct k as [|j]; [lia|].
  destruct (lookup_lt_is_Some_2 x j) as [xj Hxj]; [lia|].
  destruct (lookup_lt_is_Some_2 y j) as [yj Hyj]; [lia|].
  destruct (club_dynamics_returns xj yj) as (dx & dy & Hrd & Edx & Edy).
  unfold Club.simulate_body.
  rewrite !(load_pred _ _ _ Hxj), !(load_pred _ _ _ Hyj). run.
  rewrite Hrd. run.
  rewrite !store_nat by lia. run.
  eexists. split; [done|].
  unfold Spec.club_inv; simpl. rewrite !length_insert.
  split; [done|]. split; [done|].
  split; [by rewrite list_lookup_insert_ne by lia|].
  split; [by rewrite list_lookup_insert_ne by lia|].
  intros i Hi. destruct (decide (i = j)) as [->|Hne].
  - exists xj, yj. do 2 eexists.
    rewrite !list_lookup_insert_ne by lia.
    rewrite !list_lookup_insert_eq by lia.
    do 4 (split; [done|]).
    unfold Spec.next_x, Spec.next_y.
    rewrite !clip_clamp, Edx, Edy, Edt. done.
  - destruct (Hsteps i) as (xi & yi & xi' & yi' & ? & ? & ? & ? & ? & ?);
      [lia|].
    exists xi, yi, xi', yi'.
    rewrite !list_lookup_insert_ne by lia. done.
Qed.

(** [simulate] returns, and what it returns is the time grid together
    with two arrays of 1000 samples, started at [(x0, y0)] and linked by
    the rule with step [t_end/999]. *)
Lemma club_run (params : gmap string Q) (x0 y0 t_end : Q) :
  Spec.club_params params x0 y0 t_end →
  ∃ t x y,
    Club.simulate payoffs params = Returns (t, x, y) ∧
    np.linspace 0 t_end 1000 = Returns t ∧
    length x = 1000%nat ∧ length y = 1000%nat ∧
    x !! 0%nat = Some x0 ∧ y !! 0%nat = Some y0 ∧
    ∀ i, (i < 999)%nat → Spec.club_step payoff (t_end / 999) x y i.
Proof.
  intros (Hx0 & Hy0 & Hte). unfold Club.simulate, getitem.
  rewrite Hte, Hx0, Hy0. run.
  destruct (linspace_returns 0 t_end 1000) as (t & Ht & Hlen & Hramp & _);
    [lia|].
  rewrite Ht. run. rewrite Hlen.
  change (Z.to_nat 1000) with 1000%nat.
  rewrite !(store_nat _ 0) by (rewrite length_zeros; lia). run.
  pose proof (load_nat t 1 _ (Hramp 1%nat ltac:(lia))) as Ht1.
  pose proof (load_nat t 0 _ (Hramp 0%nat ltac:(lia))) as Ht0.
  change (Z.of_nat 1) with 1%Z in Ht1. change (Z.of_nat 0) with 0%Z in Ht0.
  rewrite Ht1, Ht0. run.
  match goal with
  | |- context [for_each _ (Club.simulate_body payoffs ?d) ?s] =>
      set (dt := d); set (s0 := s)
  end.
  assert (Edt : dt == t_end / 999) by apply linspace_dt.
  destruct (for_each_range (Spec.club_inv payoff 1000 x0 y0 (t_end / 999))
              (Club.simulate_body payoffs dt) 1 1000 s0)
    as ([x y] & Hloop & Hlx & Hly & Hx & Hy & Hsteps); [lia| |..].
  - unfold Spec.club_inv, s0; cbn [fst snd].
    rewrite !length_insert, !length_zeros.
    do 2 (split; [done|]).
    split; [apply list_lookup_insert_eq; rewrite length_zeros; lia|].
    split; [apply list_lookup_insert_eq; rewrite length_zeros; lia|].
    intros i Hi. lia.
  - intros k s1 Hk Hinv. by eapply club_body_step.
  - change (Z.of_nat 1) with 1%Z in Hloop.
    rewrite Hloop. run. simpl in Hlx, Hly, Hx, Hy, Hsteps.
    exists t, x, y. do 6 (split; [done|]).
    intros i Hi. apply Hsteps. lia.
Qed.
End ClubRun.

(** ** The player engine *)

Section PlayerRun.
Context (params : gmap string Q) (a0 d0 b pGrow mGrow x0 t_end : Q).
Hypothesis Hparams : Spec.player_params params a0 d0 b pGrow mGrow x0 t_end.

(** The five coefficient lookups succeed. *)
Lemma call_dynamics_returns (xv : Q) :
  Player.call_dynamics params xv
  = Returns (Player.replicator_dynamics xv a0 d0 b pGrow mGrow).
Proof.
  destruct Hparams as (Ha0 & Hd0 & Hb & HpG & HmG & _).
  unfold Player.call_dynamics, getitem.
  by rewrite Ha0, Hd0, Hb, HpG, HmG.
Qed.

Lemma player_body_step (n : nat) (dt dt' : Q) (k : nat) (s : Player.arrays) :
  dt == dt' → (1 ≤ k < n)%nat → Spec.player_inv a0 d0 b pGrow mGrow x0 n dt' k s →
  ∃ s1, Player.solve_body params dt (Z.of_nat k) s = Returns s1 ∧
        Spec.player_inv a0 d0 b pGrow mGrow x0 n dt' (S k) s1.
Proof.
  intros Edt Hk (Hlx & HlP & HlM & Hla & Hld & Hx0 & Hsteps).
  destruct s as [x fP fM a d]; cbn [Player.arr_x Player.arr_fP
    Player.arr_fM Player.arr_a Player.arr_d] in *.
  destruct k as [|j]; [lia|].
  destruct (lookup_lt_is_Some_2 x j) as [xj Hxj]; [lia|].
  unfold Player.solve_body.
  cbn [Player.arr_x Player.arr_fP Player.arr_fM Player.arr_a Player.arr_d].
  rewrite !(load_pred _ _ _ Hxj). run.
  rewrite call_dynamics_returns. unfold Player.replicator_dynamics. run.
  rewrite !store_pred by lia. run.
  rewrite store_nat by lia. run.
  eexists. split; [done|].
  unfold Spec.player_inv.
  cbn [Player.arr_x Player.arr_fP Player.arr_fM Player.arr_a Player.arr_d].
  rewrite !length_insert.
  do 5 (split; [done|]).
  split; [by rewrite list_lookup_insert_ne by lia|].
  intros i Hi. destruct (decide (i = j)) as [->|Hne].
  - split.
    + exists xj. do 4 eexists.
      rewrite list_lookup_insert_ne by lia.
      rewrite !list_lookup_insert_eq by lia.
      do 5 (split; [done|]). done.
    + exists xj. do 3 eexists.
      rewrite list_lookup_insert_ne by lia.
      rewrite !list_lookup_insert_eq by lia.
      do 4 (split; [done|]). by rewrite Edt.
  - destruct (Hsteps i) as [Hsample Hstep]; [lia|].
    split.
    + destruct Hsample as (xi & fPi & fMi & ai & di & ? & ? & ? & ? & ? & ?).
      exists xi, fPi, fMi, ai, di.
      rewrite !list_lookup_insert_ne by lia. done.
    + destruct Hstep as (xi & fPi & fMi & xi' & ? & ? & ? & ? & ?).
      exists xi, fPi, fMi, xi'.
      rewrite !list_lookup_insert_ne by lia. done.
Qed.

(** [solve_ode] returns, and what it returns is the time grid together
    with five arrays of 1000 samples: [x] started at [x0] and advanced by
    the unclamped Euler update with step [t_end/999], and the payoffs of
    every sample, the last one included. *)
Lemma player_run :
  ∃ t x fP fM a d,
    Player.solve_ode params = Returns (t, x, fP, fM, a, d) ∧
    np.linspace 0 t_end 1000 = Returns t ∧
    length x = 1000%nat ∧ length fP = 1000%nat ∧ length fM = 1000%nat ∧
    length a = 1000%nat ∧ length d = 1000%nat ∧
    x !! 0%nat = Some x0 ∧
    (∀ i, (i < 1000)%nat →
       Spec.player_sample a0 d0 b pGrow mGrow x fP fM a d i) ∧
    (∀ i, (i < 999)%nat → Spec.player_step (t_end / 999) x fP fM i).
Proof.
  destruct Hparams as (_ & _ & _ & _ & _ & Hx0 & Hte).
  unfold Player.solve_ode, getitem.
  rewrite Hte, Hx0. run.
  destruct (linspace_returns 0 t_end 1000) as (t & Ht & Hlen & Hramp & _);
    [lia|].
  rewrite Ht. run. rewrite Hlen.
  change (Z.to_nat 1000) with 1000%nat.
  rewrite !(store_nat _ 0) by (rewrite length_zeros; lia). run.
  pose proof (load_nat t 1 _ (Hramp 1%nat ltac:(lia))) as Ht1.
  pose proof (load_nat t 0 _ (Hramp 0%nat ltac:(lia))) as Ht0.
  change (Z.of_nat 1) with 1%Z in Ht1. change (Z.of_nat 0) with 0%Z in Ht0.
  rewrite Ht1, Ht0. run.
  match goal with
  | |- context [for_each _ (Player.solve_body params ?d) ?s] =>
      set (dt := d); set (s0 := s)
  end.
  assert (Edt : dt == t_end / 999) by apply linspace_dt.
  destruct (for_each_range (Spec.player_inv a0 d0 b pGrow mGrow x0 1000 (t_end / 999))
              (Player.solve_body params dt) 1 1000 s0)
    as ([x fP fM a d] & Hloop & Hinv); [lia| |..].
  - unfold Spec.player_inv, s0.
    cbn [Player.arr_x Player.arr_fP Player.arr_fM Player.arr_a Player.arr_d].
    rewrite !length_insert, !length_zeros.
    do 5 (split; [done|]).
    split; [apply list_lookup_insert_eq; rewrite length_zeros; lia|].
    intros i Hi. lia.
  - intros k s1 Hk Hinv. by eapply player_body_step.
  - destruct Hinv as (Hlx & HlP & HlM & Hla & Hld & Hx & Hsteps).
    cbn [Player.arr_x Player.arr_fP Player.arr_fM Player.arr_a Player.arr_d]
      in *.
    change (Z.of_nat 1) with 1%Z in Hloop.
    rewrite Hloop. run.
    cbn [Player.arr_x Player.arr_fP Player.arr_fM Player.arr_a Player.arr_d].
    destruct (lookup_lt_is_Some_2 x 999) as [xl Hxl]; [lia|].
    rewrite (load_last x xl) by (by rewrite Hlx). run.
    rewrite call_dynamics_returns. unfold Player.replicator_dynamics. run.
    rewrite !store_last by lia. run.
    rewrite HlP, HlM, Hla, Hld. change (1000 - 1)%nat with 999%nat.
    do 6 eexists. split; [done|]. split; [done|].
    rewrite !length_insert.
    do 6 (split; [done|]).
    split.
    + intros i Hi. destruct (decide (i = 999%nat)) as [->|Hne].
      * exists xl. do 4 eexists.
        rewrite !list_lookup_insert_eq by lia.
        do 5 (split; [done|]). done.
      * destruct (Hsteps i) as [Hsample _]; [lia|].
        destruct Hsample as (xi & fPi & fMi & ai & di & ? & ? & ? & ? & ? & ?).
        exists xi, fPi, fMi, ai, di.
        rewrite !list_lookup_insert_ne by lia. done.
    + intros i Hi. destruct (Hsteps i) as [_ Hstep]; [lia|].
      destruct Hstep as (xi & fPi & fMi & xi' & ? & ? & ? & ? & ?).
      exists xi, fPi, fMi, xi'.
      rewrite !list_lookup_insert_ne by lia. done.
Qed.
End PlayerRun.

(** ** The time grid *)


(** The samples of [np.linspace(0, t_end, 1000)]. *)
Lemma linspace_samples (t_end : Q) (t : list Q) :
  np.linspace 0 t_end 1000 = Returns t →
  length t = 1000%nat ∧
  (∀ k v, t !! k = Some v →
     (k < 999)%nat ∧ v == inject_Z (Z.of_nat k) * (t_end / 999) ∨
     k = 999%nat ∧ v = t_end).
Proof.
  intros Ht.
  destruct (linspace_returns 0 t_end 1000) as (t' & Ht' & Hlen & Hramp & Hlast);
    [lia|].
  rewrite Ht in Ht'. injection Ht' as <-.
  split; [done|]. intros k v Hv.
  assert (k < 1000)%nat as Hk
    by (apply lookup_lt_Some in Hv; by rewrite Hlen in Hv).
  destruct (decide (k = 999%nat)) as [->|Hne].
  - right. split; [done|].
    change (Z.to_nat 1000 - 1)%nat with 999%nat in Hlast.
    rewrite Hlast in Hv by lia. by injection Hv.
  - left. split; [lia|].
    rewrite Hramp in Hv by lia. injection Hv as <-.
    change (inject_Z (1000 - 1)) with 999. field.
Qed.


(** ** Boundary states *)



Lemma clamp_unit (v : Q) : 0 <= Spec.clamp v 0 1 <= 1.
Proof.
  unfold Spec.clamp.
  destruct (Qlt_le_dec v 0); [lra|]. destruct (Qlt_le_dec 1 v); lra.
Qed.








Lemma club_steps_in_unit payoff (dt x0 y0 : Q) (x y : list Q) (m : nat) :
  length x = S m → length y = S m →
  x !! 0%nat = Some x0 → y !! 0%nat = Some y0 →
  0 <= x0 <= 1 → 0 <= y0 <= 1 →
  (∀ i, (i < m)%nat → Spec.club_step payoff dt x y i) →
  Spec.in_unit x ∧ Spec.in_unit y.
Proof.
  intros Hlx Hly Hx0 Hy0 Bx By Hsteps.
  split; apply Forall_lookup; intros [|i] v Hv; simpl.
  - rewrite Hx0 in Hv. by injection Hv as <-.
  - destruct (Hsteps i) as (xi & yi & xi' & yi' & _ & _ & Hxi' & _ & Ex & _);
      [apply lookup_lt_Some in Hv; lia|].
    rewrite Hxi' in Hv; injection Hv as <-.
    rewrite Ex. apply clamp_unit.
  - rewrite Hy0 in Hv. by injection Hv as <-.
  - destruct (Hsteps i) as (xi & yi & xi' & yi' & _ & _ & _ & Hyi' & _ & Ey);
      [apply lookup_lt_Some in Hv; lia|].
    rewrite Hyi' in Hv; injection Hv as <-.
    rewrite Ey. apply clamp_unit.
Qed.


(** A series whose first sample is [c] and whose every step keeps [c] is
    constant. *)
Lemma constant_intro (l : list Q) (c v0 : Q) :
  l !! 0%nat = Some v0 → v0 == c →
  (∀ i vi vi', l !! i = Some vi → l !! S i = Some vi' → vi == c → vi' == c) →
  Spec.constant c l.
Proof.
  intros H0 E0 Hkeep. apply Forall_lookup. intros j.
  induction j as [|j IH]; intros vj Hj; simpl.
  - rewrite H0 in Hj. by injection Hj as <-.
  - destruct (lookup_lt_is_Some_2 l j) as [w Hw];
      [apply lookup_lt_Some in Hj; lia|].
    apply (Hkeep j w); [done..|]. by apply IH.
Qed.

(** With a zero step the player state does not move. *)
Lemma player_steps_still (dt x0 : Q) (x fP fM : list Q) (m : nat) :
  length x = S m → x !! 0%nat = Some x0 → dt == 0 →
  (∀ i, (i < m)%nat → Spec.player_step dt x fP fM i) →
  Spec.constant x0 x.
Proof.
  intros Hlx H0 Edt Hsteps. apply (constant_intro x x0 x0); [done..|].
  intros i vi vi' Hi Hi' E.
  destruct (Hsteps i) as (xi & fPi & fMi & xi' & Hxi & _ & _ & Hxi' & Ex);
    [apply lookup_lt_Some in Hi'; lia|].
  rewrite Hxi in Hi; injection Hi as ->.
  rewrite Hxi' in Hi'; injection Hi' as ->.
  rewrite Ex, Edt, E. ring.
Qed.

(** With a zero horizon every time sample is 0. *)
Lemma linspace_zero (t_end : Q) (t : list Q) :
  t_end == 0 → np.linspace 0 t_end 1000 = Returns t → Spec.constant 0 t.
Proof.
  intros E Ht. destruct (linspace_samples _ _ Ht) as [_ Hs].
  apply Forall_lookup. intros k v Hv. simpl.
  destruct (Hs _ _ Hv) as [[_ Ev]|[_ ->]]; [|done].
  rewrite Ev, E. field.
Qed.

(** ** The joint-proportion series *)


(** ** The rest point of the repository's table *)

Lemma repo_tabulates : Spec.tabulates Club.payoffs Spec.repo_payoff.
Proof. intros [] []; vm_compute; reflexivity. Qed.

Lemma repo_rate_x (x y : Q) :
  Spec.rate_x Spec.repo_payoff x y == x * (1 - x) * (1 - x) * (1 - 2 * y).
Proof.
  unfold Spec.rate_x, Spec.average_A, Spec.payoff_A. simpl. ring.
Qed.

Lemma repo_rate_y (x y : Q) :
  Spec.rate_y Spec.repo_payoff x y == y * (1 - y) * (1 - y) * (1 - 2 * x).
Proof.
  unfold Spec.rate_y, Spec.average_B, Spec.payoff_B. simpl. ring.
Qed.

Lemma repo_next_half (dt x y : Q) :
  x == 1 # 2 → y == 1 # 2 →
  Spec.next_x Spec.repo_payoff dt x y == 1 # 2 ∧
  Spec.next_y Spec.repo_payoff dt x y == 1 # 2.
Proof.
  intros Ex Ey. unfold Spec.next_x, Spec.next_y.
  rewrite repo_rate_x, repo_rate_y, Ex, Ey.
  split; rewrite <- clip_clamp; apply clip_id; lra.
Qed.

Lemma club_steps_half (dt : Q) (x y : list Q) (m : nat) (v0 w0 : Q) :
  length x = S m → length y = S m →
  x !! 0%nat = Some v0 → y !! 0%nat = Some w0 → v0 == 1 # 2 → w0 == 1 # 2 →
  (∀ i, (i < m)%nat → Spec.club_step Spec.repo_payoff dt x y i) →
  Spec.constant (1 # 2) x ∧ Spec.constant (1 # 2) y.
Proof.
  intros Hlx Hly Hx0 Hy0 Ev Ew Hsteps.
  assert (∀ j xj yj, x !! j = Some xj → y !! j = Some yj →
            xj == 1 # 2 ∧ yj == 1 # 2) as Hboth.
  { induction j as [|j IH]; intros xj yj Hxj Hyj.
    - rewrite Hx0 in Hxj; injection Hxj as <-.
      rewrite Hy0 in Hyj; injection Hyj as <-. done.
    - destruct (Hsteps j) as (xi & yi & xi' & yi' & Hxi & Hyi & Hxi' & Hyi'
                               & Ex & Ey);
        [apply lookup_lt_Some in Hxj; lia|].
      rewrite Hxi' in Hxj; injection Hxj as <-.
      rewrite Hyi' in Hyj; injection Hyj as <-.
      destruct (IH xi yi Hxi Hyi) as [Exi Eyi].
      rewrite Ex, Ey. by apply repo_next_half. }
  split; apply Forall_lookup; intros j v Hv; simpl.
  - destruct (lookup_lt_is_Some_2 y j) as [w Hw];
      [apply lookup_lt_Some in Hv; lia|].
    by destruct (Hboth j v w).
  - destruct (lookup_lt_is_Some_2 x j) as [w Hw];
      [apply lookup_lt_Some in Hv; lia|].
    by destruct (Hboth j w v).
Qed.

(** The default run of the club script stays at [(1/2, 1/2)]. *)
Lemma club_default_run :
  ∃ t x y,
    Club.simulate Club.payoffs Club.params = Returns (t, x, y) ∧
    length x = 1000%nat ∧ length y = 1000%nat ∧
    Spec.constant (1 # 2) x ∧ Spec.constant (1 # 2) y.
Proof.
  destruct (club_run Club.payoffs Spec.repo_payoff repo_tabulates
              Club.params (1 # 2) (1 # 2) 10)
    as (t & x & y & Hrun & _ & Hlx & Hly & Hx0 & Hy0 & Hsteps).
  { repeat split; vm_compute; reflexivity. }
  exists t, x, y. do 3 (split; [done|]).
  by apply (club_steps_half (10 / 999) x y 999 (1 # 2) (1 # 2)).
Qed.

(** * The claims *)

(** Discharge of the side conditions of a concrete run: the payoff
    dictionary has the four keys, the parameter dictionary its fields. *)
Ltac table := intros [] []; vm_compute; reflexivity.
Ltac fields := repeat split; vm_compute; reflexivity.

(** C1.  Club engine, per-step algorithm.  [replicator_dynamics] returns
    the two rates of the rule: A's Youth payoff minus A's average payoff,
    weighted by [x(1-x)], and the mirrored quantity for B.  At every one of
    the 999 steps of [simulate] the next sample is
    [clamp(x + dx*dt, 0, 1)], and likewise for [y], with [dt = t_end/999]. *)
Theorem C1_club_per_step
    (payoffs : gmap (string * string) (Q * Q))
    (payoff : Spec.strategy → Spec.strategy → Q * Q)
    (params : gmap string Q) (x0 y0 t_end : Q) :
  Spec.tabulates payoffs payoff →
  Spec.club_params params x0 y0 t_end →
  (∀ xv yv, ∃ dx dy,
     Club.replicator_dynamics payoffs xv yv = Returns (dx, dy) ∧
     dx == xv * (1 - xv)
           * (Spec.payoff_A payoff Spec.Youth yv - Spec.average_A payoff xv yv) ∧
     dy == yv * (1 - yv)
           * (Spec.payoff_B payoff Spec.Youth xv - Spec.average_B payoff xv yv)) ∧
  ∃ t x y,
    Club.simulate payoffs params = Returns (t, x, y) ∧
    x !! 0%nat = Some x0 ∧ y !! 0%nat = Some y0 ∧
    ∀ i, (i < 999)%nat → Spec.club_step payoff (t_end / 999) x y i.
Proof.
  intros Htab Hp. split.
  - intros xv yv. by apply club_dynamics_returns.
  - destruct (club_run payoffs payoff Htab params x0 y0 t_end Hp)
      as (t & x & y & Hrun & _ & _ & _ & Hx0 & Hy0 & Hsteps).
    by exists t, x, y.
Qed.

Lemma C1_club_per_step_witness :
  ∃ t x y,
    Club.simulate Club.payoffs Club.params = Returns (t, x, y) ∧
    x !! 0%nat = Some (1 # 2) ∧ y !! 0%nat = Some (1 # 2) ∧
    ∀ i, (i < 999)%nat → Spec.club_step Spec.repo_payoff (10 / 999) x y i.
Proof.
  apply (C1_club_per_step Club.payoffs Spec.repo_payoff Club.params
           (1 # 2) (1 # 2) 10); [table | fields].
Defined.

(** C2.  Player engine, per-step algorithm.  [solve_ode] returns six
    series; for every [i] in 0..999 the recorded payoffs are
    [a[i] = a0 + pGrow*x[i]], [d[i] = d0 + mGrow*(1 - x[i])],
    [fP[i] = a[i]*x[i] + b*(1 - x[i])], [fM[i] = b*x[i] + d[i]*(1 - x[i])]
    (at [i = 999] from the extra evaluation at the terminal [x]), and for
    every [i] below 999 the state advances by the unclamped update
    [x[i+1] = x[i] + x[i]*(1 - x[i])*(fP[i] - fM[i])*dt], [dt = t_end/999]. *)
Theorem C2_player_per_step
    (params : gmap string Q) (a0 d0 b pGrow mGrow x0 t_end : Q) :
  Spec.player_params params a0 d0 b pGrow mGrow x0 t_end →
  ∃ t x fP fM a d,
    Player.solve_ode params = Returns (t, x, fP, fM, a, d) ∧
    x !! 0%nat = Some x0 ∧
    (∀ i, (i < 1000)%nat →
       Spec.player_sample a0 d0 b pGrow mGrow x fP fM a d i) ∧
    (∀ i, (i < 999)%nat → Spec.player_step (t_end / 999) x fP fM i).
Proof.
  intros Hp.
  destruct (player_run params a0 d0 b pGrow mGrow x0 t_end Hp)
    as (t & x & fP & fM & a & d & Hrun & _ & _ & _ & _ & _ & _ & Hx0
        & Hsamples & Hsteps).
  by exists t, x, fP, fM, a, d.
Qed.

Lemma C2_player_per_step_witness :
  ∃ t x fP fM a d,
    Player.solve_ode Player.params = Returns (t, x, fP, fM, a, d) ∧
    x !! 0%nat = Some (3 # 5) ∧
    (∀ i, (i < 1000)%nat →
       Spec.player_sample (5 # 2) 2 (7 # 5) 1 5 x fP fM a d i) ∧
    (∀ i, (i < 999)%nat → Spec.player_step (10 / 999) x fP fM i).
Proof.
  apply (C2_player_per_step Player.params (5 # 2) 2 (7 # 5) 1 5 (3 # 5) 10).
  fields.
Defined.

(** C3.  Club clamping invariant.  For initial probabilities in [[0, 1]]
    and a positive horizon, every one of the 1000 samples of [x] and of
    [y] returned by [simulate] lies in [[0, 1]], whatever the payoff table
    and however large the step. *)
Theorem C3_club_clamping
    (payoffs : gmap (string * string) (Q * Q))
    (payoff : Spec.strategy → Spec.strategy → Q * Q)
    (params : gmap string Q) (x0 y0 t_end : Q) :
  Spec.tabulates payoffs payoff →
  Spec.club_params params x0 y0 t_end →
  0 <= x0 <= 1 → 0 <= y0 <= 1 → 0 < t_end →
  ∃ t x y,
    Club.simulate payoffs params = Returns (t, x, y) ∧
    length x = 1000%nat ∧ length y = 1000%nat ∧
    Spec.in_unit x ∧ Spec.in_unit y.
Proof.
  intros Htab Hp Bx By _.
  destruct (club_run payoffs payoff Htab params x0 y0 t_end Hp)
    as (t & x & y & Hrun & _ & Hlx & Hly & Hx0 & Hy0 & Hsteps).
  exists t, x, y. do 3 (split; [done|]).
  by apply (club_steps_in_unit payoff (t_end / 999) x0 y0 x y 999).
Qed.

Lemma C3_club_clamping_witness :
  ∃ t x y,
    Club.simulate Club.payoffs
      {[ "x0" := 1 # 100; "y0" := 99 # 100; "t_end" := 40 ]}
    = Returns (t, x, y) ∧
    length x = 1000%nat ∧ length y = 1000%nat ∧
    Spec.in_unit x ∧ Spec.in_unit y.
Proof.
  apply (C3_club_clamping Club.payoffs Spec.repo_payoff _
           (1 # 100) (99 # 100) 40); [table | fields | lra | lra | lra].
Defined.



(** C5 does not hold as stated: with [t_end = 0] neither engine raises.
    Both default dictionaries with the horizon set to 0 give a returned
    trajectory. *)
Lemma C5_zero_horizon_returns :
  (¬ ∃ e, Club.simulate Club.payoffs (<["t_end" := 0]> Club.params)
          = Raises e) ∧
  (¬ ∃ e, Player.solve_ode (<["t_end" := 0]> Player.params) = Raises e).
Proof.
  split; intros [e He].
  - destruct (club_run Club.payoffs Spec.repo_payoff repo_tabulates
                (<["t_end" := 0]> Club.params) (1 # 2) (1 # 2) 0)
      as (t & x & y & Hrun & _); [fields|].
    rewrite Hrun in He. discriminate He.
  - destruct (player_run (<["t_end" := 0]> Player.params)
                (5 # 2) 2 (7 # 5) 1 5 (3 # 5) 0)
      as (t & x & fP & fM & a & d & Hrun & _); [fields|].
    rewrite Hrun in He. discriminate He.
Qed.

(** C5, amended.  The engines do not check the horizon: with
    [t_end <= 0] both return a trajectory of 1000 samples without raising,
    and with [t_end = 0] it is the degenerate one, all time samples 0 and
    the player state held at [x0]. *)
Theorem C5_horizon_unchecked
    (payoffs : gmap (string * string) (Q * Q))
    (payoff : Spec.strategy → Spec.strategy → Q * Q)
    (cparams pparams : gmap string Q)
    (x0 y0 a0 d0 b pGrow mGrow px0 t_end : Q) :
  Spec.tabulates payoffs payoff →
  Spec.club_params cparams x0 y0 t_end →
  Spec.player_params pparams a0 d0 b pGrow mGrow px0 t_end →
  t_end <= 0 →
  (∃ t x y,
     Club.simulate payoffs cparams = Returns (t, x, y) ∧
     length t = 1000%nat ∧ length x = 1000%nat ∧ length y = 1000%nat ∧
     (t_end == 0 → Spec.constant 0 t)) ∧
  (∃ t x fP fM a d,
     Player.solve_ode pparams = Returns (t, x, fP, fM, a, d) ∧
     length t = 1000%nat ∧ length x = 1000%nat ∧
     (t_end == 0 → Spec.constant 0 t ∧ Spec.constant px0 x)).
Proof.
  intros Htab Hc Hp _. split.
  - destruct (club_run payoffs payoff Htab cparams x0 y0 t_end Hc)
      as (t & x & y & Hrun & Ht & Hlx & Hly & _).
    exists t, x, y. split; [done|].
    split; [by destruct (linspace_samples _ _ Ht)|].
    do 2 (split; [done|]).
    intros E. by apply (linspace_zero t_end).
  - destruct (player_run pparams a0 d0 b pGrow mGrow px0 t_end Hp)
      as (t & x & fP & fM & a & d & Hrun & Ht & Hlx & _ & _ & _ & _ & Hx0
          & _ & Hsteps).
    exists t, x, fP, fM, a, d. split; [done|].
    split; [by destruct (linspace_samples _ _ Ht)|].
    split; [done|].
    intros E. split; [by apply (linspace_zero t_end)|].
    apply (player_steps_still (t_end / 999) px0 x fP fM 999); [done..| |done].
    rewrite E. field.
Qed.

Lemma C5_horizon_unchecked_witness :
  (∃ t x y,
     Club.simulate Club.payoffs (<["t_end" := 0]> Club.params)
     = Returns (t, x, y) ∧
     length t = 1000%nat ∧ length x = 1000%nat ∧ length y = 1000%nat ∧
     (0 == 0 → Spec.constant 0 t)) ∧
  (∃ t x fP fM a d,
     Player.solve_ode (<["t_end" := 0]> Player.params)
     = Returns (t, x, fP, fM, a, d) ∧
     length t = 1000%nat ∧ length x = 1000%nat ∧
     (0 == 0 → Spec.constant 0 t ∧ Spec.constant (3 # 5) x)).
Proof.
  apply (C5_horizon_unchecked Club.payoffs Spec.repo_payoff
           (<["t_end" := 0]> Club.params) (<["t_end" := 0]> Player.params)
           (1 # 2) (1 # 2) (5 # 2) 2 (7 # 5) 1 5 (3 # 5) 0);
    [table | fields | fields | lra].
Defined.







(** C9 does not hold as stated: in the run of scenario 1 the last sample of
    [x] is not below the first. *)
Lemma C9_last_not_below_first :
  ¬ ∃ t x y v0 v999,
      Club.simulate Club.payoffs Club.params = Returns (t, x, y) ∧
      x !! 0%nat = Some v0 ∧ x !! 999%nat = Some v999 ∧ v999 < v0.
Proof.
  intros (t & x & y & v0 & v999 & Hrun & H0 & H999 & Hlt).
  destruct club_default_run as (t' & x' & y' & Hrun' & _ & _ & Hx & _).
  rewrite Hrun in Hrun'. injection Hrun' as <- <- <-.
  pose proof (proj1 (Forall_lookup _ _) Hx _ _ H0) as E0.
  pose proof (proj1 (Forall_lookup _ _) Hx _ _ H999) as E999.
  simpl in E0, E999. lra.
Qed.

(** C9, amended.  Scenario 1: with the repository's payoff table,
    [x0 = y0 = 1/2] and [t_end = 10], the run rests at [(1/2, 1/2)]: all
    1000 samples of [x] and of [y] equal 1/2, so the last sample of [x]
    equals the first. *)
Theorem C9_scenario_rest_point :
  ∃ t x y,
    Club.simulate Club.payoffs Club.params = Returns (t, x, y) ∧
    length x = 1000%nat ∧ length y = 1000%nat ∧
    Spec.constant (1 # 2) x ∧ Spec.constant (1 # 2) y ∧
    ∃ v0 v999, x !! 0%nat = Some v0 ∧ x !! 999%nat = Some v999 ∧ v999 == v0.
Proof.
  destruct club_default_run as (t & x & y & Hrun & Hlx & Hly & Hx & Hy).
  exists t, x, y. do 5 (split; [done|]).
  destruct (lookup_lt_is_Some_2 x 0) as [v0 H0]; [lia|].
  destruct (lookup_lt_is_Some_2 x 999) as [v999 H999]; [lia|].
  exists v0, v999. do 2 (split; [done|]).
  pose proof (proj1 (Forall_lookup _ _) Hx _ _ H0) as E0.
  pose proof (proj1 (Forall_lookup _ _) Hx _ _ H999) as E999.
  simpl in E0, E999. by rewrite E0, E999.
Qed.



(** * Further properties of the two scripts *)

(** ** Which runs return *)

Lemma has_keys_dec {K} `{Countable K} {V} (d : gmap K V) (ks : list K) :
  Decision (Laws.has_keys d ks).
Proof. unfold Laws.has_keys. apply _. Defined.

Lemma has_keys_tabulates (payoffs : gmap (string * string) (Q * Q)) :
  Laws.has_keys payoffs Laws.table_keys →
  ∃ payoff, Spec.tabulates payoffs payoff.
Proof.
  unfold Laws.has_keys, Laws.table_keys. rewrite !Forall_cons.
  intros ([p1 H1] & [p2 H2] & [p3 H3] & [p4 H4] & _).
  exists (λ a b, match a, b with
                 | Spec.Youth, Spec.Youth => p1
                 | Spec.Youth, Spec.Star => p2
                 | Spec.Star, Spec.Youth => p3
                 | Spec.Star, Spec.Star => p4
                 end).
  intros [] []; done.
Qed.

Lemma tabulates_has_keys (payoffs : gmap (string * string) (Q * Q)) payoff :
  Spec.tabulates payoffs payoff → Laws.has_keys payoffs Laws.table_keys.
Proof.
  intros Htab. unfold Laws.has_keys, Laws.table_keys.
  rewrite !Forall_cons.
  split; [eexists; apply (Htab Spec.Youth Spec.Youth)|].
  split; [eexists; apply (Htab Spec.Youth Spec.Star)|].
  split; [eexists; apply (Htab Spec.Star Spec.Youth)|].
  split; [eexists; apply (Htab Spec.Star Spec.Star)|].
  constructor.
Qed.

Lemma has_keys_club_params (params : gmap string Q) :
  Laws.has_keys params Laws.club_keys ↔
  ∃ x0 y0 t_end, Spec.club_params params x0 y0 t_end.
Proof.
  unfold Laws.has_keys, Laws.club_keys, Spec.club_params.
  rewrite !Forall_cons. split.
  - intros ([te Hte] & [x0 Hx0] & [y0 Hy0] & _). by exists x0, y0, te.
  - intros (x0 & y0 & te & Hx0 & Hy0 & Hte).
    repeat split; try apply Forall_nil; by eexists.
Qed.

Lemma has_keys_player_params (params : gmap string Q) :
  Laws.has_keys params Laws.player_keys ↔
  ∃ a0 d0 b pGrow mGrow x0 t_end,
    Spec.player_params params a0 d0 b pGrow mGrow x0 t_end.
Proof.
  unfold Laws.has_keys, Laws.player_keys, Spec.player_params.
  rewrite !Forall_cons. split.
  - intros ([te Hte] & [x0 Hx0] & [a0 Ha0] & [d0 Hd0] & [b Hb] & [pG HpG]
            & [mG HmG] & _).
    by exists a0, d0, b, pG, mG, x0, te.
  - intros (a0 & d0 & b & pG & mG & x0 & te & ? & ? & ? & ? & ? & ? & ?).
    repeat split; try apply Forall_nil; by eexists.
Qed.

(** [replicator_dynamics] of the club script raises [KeyError] when the
    payoff dictionary lacks one of the four pairs. *)
Lemma club_dynamics_raises (payoffs : gmap (string * string) (Q * Q)) (x y : Q) :
  ¬ Laws.has_keys payoffs Laws.table_keys →
  Club.replicator_dynamics payoffs x y = Raises KeyError.
Proof.
  unfold Laws.has_keys, Laws.table_keys. rewrite !Forall_cons.
  intros Hno. unfold Club.replicator_dynamics, getitem.
  destruct (payoffs !! ("Youth", "Youth")) eqn:E1; [|done].
  destruct (payoffs !! ("Youth", "Star")) eqn:E2; [|done].
  destruct (payoffs !! ("Star", "Youth")) eqn:E3; [|done].
  destruct (payoffs !! ("Star", "Star")) eqn:E4; [|done].
  destruct Hno. repeat split; try apply Forall_nil; by eexists.
Qed.

Lemma for_each_raises {S : Type} (body : Z → S → outcome S)
    (i : Z) (l : list Z) (s : S) (e : exn) :
  body i s = Raises e → for_each (i :: l) body s = Raises e.
Proof. intros H. simpl. by rewrite H. Qed.

(** The first iteration of the club loop on freshly initialised arrays. *)
Lemma club_first_body_raises (payoffs : gmap (string * string) (Q * Q))
    (dt x0 y0 : Q) (n : nat) :
  (1 < n)%nat →
  ¬ Laws.has_keys payoffs Laws.table_keys →
  Club.simulate_body payoffs dt 1
    (<[0%nat:=x0]> (np.zeros n), <[0%nat:=y0]> (np.zeros n))
  = Raises KeyError.
Proof.
  intros Hn Hno. unfold Club.simulate_body.
  change (1 - 1)%Z with (Z.of_nat 0).
  assert (Hx : <[0%nat:=x0]> (np.zeros n) !! 0%nat = Some x0)
    by (apply list_lookup_insert_eq; rewrite length_zeros; lia).
  assert (Hy : <[0%nat:=y0]> (np.zeros n) !! 0%nat = Some y0)
    by (apply list_lookup_insert_eq; rewrite length_zeros; lia).
  rewrite !(load_nat _ 0 x0 Hx), !(load_nat _ 0 y0 Hy).
  run. by rewrite club_dynamics_raises.
Qed.

Lemma club_simulate_raises (payoffs : gmap (string * string) (Q * Q))
    (params : gmap string Q) :
  ¬ (Laws.has_keys payoffs Laws.table_keys ∧
     Laws.has_keys params Laws.club_keys) →
  Club.simulate payoffs params = Raises KeyError.
Proof.
  intros Hno. unfold Club.simulate, getitem.
  destruct (params !! "t_end") as [te|] eqn:Hte; [|done]. run.
  destruct (linspace_returns 0 te 1000) as (t & Ht & Hlen & Hramp & _); [lia|].
  rewrite Ht. run.
  destruct (params !! "x0") as [x0|] eqn:Hx0; [|done]. run.
  destruct (params !! "y0") as [y0|] eqn:Hy0; [|done]. run.
  rewrite Hlen. change (Z.to_nat 1000) with 1000%nat.
  rewrite !(store_nat _ 0) by (rewrite length_zeros; lia). run.
  pose proof (load_nat t 1 _ (Hramp 1%nat ltac:(lia))) as Ht1.
  pose proof (load_nat t 0 _ (Hramp 0%nat ltac:(lia))) as Ht0.
  change (Z.of_nat 1) with 1%Z in Ht1. change (Z.of_nat 0) with 0%Z in Ht0.
  rewrite Ht1, Ht0. run.
  rewrite range_cons by lia.
  rewrite (for_each_raises _ _ _ _ KeyError); [done|].
  apply club_first_body_raises; [lia|].
  intros Hk. apply Hno. split; [done|].
  apply has_keys_club_params. by exists x0, y0, te.
Qed.

Lemma player_call_raises (params : gmap string Q) (xv : Q) :
  ¬ Laws.has_keys params ["a0"; "d0"; "b"; "pGrow"; "mGrow"] →
  Player.call_dynamics params xv = Raises KeyError.
Proof.
  unfold Laws.has_keys. rewrite !Forall_cons.
  intros Hno. unfold Player.call_dynamics, getitem.
  destruct (params !! "a0") eqn:E1; [|done].
  destruct (params !! "d0") eqn:E2; [|done].
  destruct (params !! "b") eqn:E3; [|done].
  destruct (params !! "pGrow") eqn:E4; [|done].
  destruct (params !! "mGrow") eqn:E5; [|done].
  destruct Hno. repeat split; try apply Forall_nil; by eexists.
Qed.

Lemma player_simulate_raises (params : gmap string Q) :
  ¬ Laws.has_keys params Laws.player_keys →
  Player.solve_ode params = Raises KeyError.
Proof.
  intros Hno. unfold Player.solve_ode, getitem.
  destruct (params !! "t_end") as [te|] eqn:Hte; [|done]. run.
  destruct (linspace_returns 0 te 1000) as (t & Ht & Hlen & Hramp & _); [lia|].
  rewrite Ht. run.
  destruct (params !! "x0") as [x0|] eqn:Hx0; [|done]. run.
  rewrite Hlen. change (Z.to_nat 1000) with 1000%nat.
  rewrite !(store_nat _ 0) by (rewrite length_zeros; lia). run.
  pose proof (load_nat t 1 _ (Hramp 1%nat ltac:(lia))) as Ht1.
  pose proof (load_nat t 0 _ (Hramp 0%nat ltac:(lia))) as Ht0.
  change (Z.of_nat 1) with 1%Z in Ht1. change (Z.of_nat 0) with 0%Z in Ht0.
  rewrite Ht1, Ht0. run.
  rewrite range_cons by lia.
  rewrite (for_each_raises _ _ _ _ KeyError); [done|].
  unfold Player.solve_body. cbn [Player.arr_x].
  change (1 - 1)%Z with (Z.of_nat 0).
  rewrite !(load_nat _ 0 x0)
    by (apply list_lookup_insert_eq; rewrite length_zeros; lia).
  run. rewrite player_call_raises; [done|].
  intros Hk. apply Hno. revert Hk.
  unfold Laws.has_keys, Laws.player_keys. rewrite !Forall_cons.
  intros (? & ? & ? & ? & ? & _). repeat split; try apply Forall_nil; try done;
    by eexists.
Qed.

(** X1.  [simulate] returns exactly when the parameter dictionary has the
    keys [t_end], [x0], [y0] and the payoff dictionary has the four
    strategy pairs; the only exception it raises is [KeyError]. *)
Theorem club_simulate_outcome
    (payoffs : gmap (string * string) (Q * Q)) (params : gmap string Q) :
  ((∃ tr, Club.simulate payoffs params = Returns tr) ↔
   Laws.has_keys payoffs Laws.table_keys ∧
   Laws.has_keys params Laws.club_keys) ∧
  (∀ e, Club.simulate payoffs params = Raises e → e = KeyError).
Proof.
  destruct (@and_dec _ (has_keys_dec payoffs Laws.table_keys)
                     _ (has_keys_dec params Laws.club_keys))
    as [[Hp Hk]|Hno].
  - destruct (has_keys_tabulates payoffs Hp) as [payoff Htab].
    apply has_keys_club_params in Hk as (x0 & y0 & te & Hc).
    destruct (club_run payoffs payoff Htab params x0 y0 te Hc)
      as (t & x & y & Hrun & _).
    split.
    + split; [intros _|intros _; by eexists].
      split; [by eapply tabulates_has_keys|].
      apply has_keys_club_params. by exists x0, y0, te.
    + intros e He. rewrite Hrun in He. discriminate He.
  - pose proof (club_simulate_raises payoffs params Hno) as Hr.
    split.
    + split; [|done]. intros [tr Htr]. rewrite Hr in Htr. discriminate Htr.
    + intros e He. rewrite Hr in He. by injection He.
Qed.

(** X2.  [solve_ode] returns exactly when the parameter dictionary has the
    seven keys it reads; the only exception it raises is [KeyError]. *)
Theorem player_solve_outcome (params : gmap string Q) :
  ((∃ tr, Player.solve_ode params = Returns tr) ↔
   Laws.has_keys params Laws.player_keys) ∧
  (∀ e, Player.solve_ode params = Raises e → e = KeyError).
Proof.
  destruct (has_keys_dec params Laws.player_keys) as [Hk|Hno].
  - pose proof Hk as Hk'.
    apply has_keys_player_params in Hk'
      as (a0 & d0 & b & pG & mG & x0 & te & Hp).
    destruct (player_run params a0 d0 b pG mG x0 te Hp)
      as (t & x & fP & fM & a & d & Hrun & _).
    split.
    + split; [done|intros _; by eexists].
    + intros e He. rewrite Hrun in He. discriminate He.
  - pose proof (player_simulate_raises params Hno) as Hr.
    split.
    + split; [|done]. intros [tr Htr]. rewrite Hr in Htr. discriminate Htr.
    + intros e He. rewrite Hr in He. by injection He.
Qed.

(** ** Runs that advance together *)

Lemma club_steps_chain payoff (dt : Q) (x y : list Q) (m : nat) :
  (∀ i, (i < m)%nat → Spec.club_step payoff dt x y i) →
  Laws.chain (Spec.next_x payoff dt) (Spec.next_y payoff dt) x y m.
Proof. intros H i Hi. apply (H i Hi). Qed.

(** Exchanging the two series of a chain exchanges its two rules. *)
Lemma chain_flip (fx fy : Q → Q → Q) (x y : list Q) (m : nat) :
  Laws.chain fx fy x y m →
  Laws.chain (λ a b, fy b a) (λ a b, fx b a) y x m.
Proof.
  intros H i Hi.
  destruct (H i Hi) as (xi & yi & xi' & yi' & ? & ? & ? & ? & ? & ?).
  by exists yi, xi, yi', xi'.
Qed.

(** Two chains with the same rules, up to [==], and the same first samples
    agree sample by sample. *)
Lemma chain_same (fx fy gx gy : Q → Q → Q) (x1 y1 x2 y2 : list Q) (m : nat) :
  length x1 = S m → length y1 = S m → length x2 = S m → length y2 = S m →
  Laws.chain fx fy x1 y1 m → Laws.chain gx gy x2 y2 m →
  (∀ a b a' b', a == a' → b == b' → fx a b == gx a' b') →
  (∀ a b a' b', a == a' → b == b' → fy a b == gy a' b') →
  (∀ v w, x1 !! 0%nat = Some v → x2 !! 0%nat = Some w → v == w) →
  (∀ v w, y1 !! 0%nat = Some v → y2 !! 0%nat = Some w → v == w) →
  Laws.same_series x1 x2 ∧ Laws.same_series y1 y2.
Proof.
  intros Hx1 Hy1 Hx2 Hy2 C1 C2 Hfx Hfy H0x H0y.
  assert (∀ j v1 w1 v2 w2,
            x1 !! j = Some v1 → y1 !! j = Some w1 →
            x2 !! j = Some v2 → y2 !! j = Some w2 →
            v1 == v2 ∧ w1 == w2) as Hboth.
  { induction j as [|j IH]; intros v1 w1 v2 w2 A1 B1 A2 B2.
    - split; [by apply H0x|by apply H0y].
    - assert (j < m)%nat as Hj by (apply lookup_lt_Some in A1; lia).
      destruct (C1 j Hj) as (a1 & b1 & a1' & b1' & P1 & P2 & P3 & P4 & E1 & E2).
      destruct (C2 j Hj) as (a2 & b2 & a2' & b2' & R1 & R2 & R3 & R4 & F1 & F2).
      rewrite P3 in A1; injection A1 as <-.
      rewrite P4 in B1; injection B1 as <-.
      rewrite R3 in A2; injection A2 as <-.
      rewrite R4 in B2; injection B2 as <-.
      destruct (IH a1 b1 a2 b2) as [Ea Eb]; [done..|].
      rewrite E1, E2, F1, F2. split; [by apply Hfx|by apply Hfy]. }
  split; apply Forall2_same_length_lookup; (split; [congruence|]);
    intros j v w Hv Hw.
  - destruct (lookup_lt_is_Some_2 y1 j) as [w1 Hw1];
      [apply lookup_lt_Some in Hv; lia|].
    destruct (lookup_lt_is_Some_2 y2 j) as [w2 Hw2];
      [apply lookup_lt_Some in Hv; lia|].
    by destruct (Hboth j v w1 w w2).
  - destruct (lookup_lt_is_Some_2 x1 j) as [v1 Hv1];
      [apply lookup_lt_Some in Hv; lia|].
    destruct (lookup_lt_is_Some_2 x2 j) as [v2 Hv2];
      [apply lookup_lt_Some in Hv; lia|].
    by destruct (Hboth j v1 v v2 w).
Qed.

Lemma rate_x_exchange payoff (a b : Q) :
  Spec.rate_x (Laws.exchange payoff) a b == Spec.rate_y payoff b a.
Proof.
  unfold Spec.rate_x, Spec.rate_y, Spec.average_A, Spec.average_B,
    Spec.payoff_A, Spec.payoff_B, Laws.exchange. simpl. ring.
Qed.

Lemma rate_y_exchange payoff (a b : Q) :
  Spec.rate_y (Laws.exchange payoff) a b == Spec.rate_x payoff b a.
Proof.
  unfold Spec.rate_x, Spec.rate_y, Spec.average_A, Spec.average_B,
    Spec.payoff_A, Spec.payoff_B, Laws.exchange. simpl. ring.
Qed.

Lemma next_exchange payoff (dt a b a' b' : Q) :
  a == a' → b == b' →
  Spec.next_x (Laws.exchange payoff) dt a b == Spec.next_y payoff dt b' a' ∧
  Spec.next_y (Laws.exchange payoff) dt a b == Spec.next_x payoff dt b' a'.
Proof.
  intros Ea Eb. rewrite <- Ea, <- Eb.
  unfold Spec.next_x, Spec.next_y.
  by rewrite rate_x_exchange, rate_y_exchange.
Qed.

(** The rate of A factorises over the payoff advantage of Youth over Star,
    with the factor [(1 - x)] squared; likewise for B. *)
Lemma rate_x_advantage payoff (x y : Q) :
  Spec.rate_x payoff x y
  == x * (1 - x) * (1 - x)
     * (Spec.payoff_A payoff Spec.Youth y - Spec.payoff_A payoff Spec.Star y).
Proof. unfold Spec.rate_x, Spec.average_A. ring. Qed.



(** X3.  Exchanging the two populations, in the payoff table and in the
    initial probabilities, exchanges the two returned series: the [x] of
    the exchanged run is the [y] of the original run and the other way
    round, on the same time grid. *)
Theorem club_exchange_symmetry
    (payoffs payoffs' : gmap (string * string) (Q * Q))
    (payoff : Spec.strategy → Spec.strategy → Q * Q)
    (params params' : gmap string Q) (x0 y0 x0' y0' t_end : Q) :
  Spec.tabulates payoffs payoff →
  Spec.tabulates payoffs' (Laws.exchange payoff) →
  Spec.club_params params x0 y0 t_end →
  Spec.club_params params' x0' y0' t_end →
  x0' == y0 → y0' == x0 →
  ∃ t x y x' y',
    Club.simulate payoffs params = Returns (t, x, y) ∧
    Club.simulate payoffs' params' = Returns (t, x', y') ∧
    Laws.same_series x' y ∧ Laws.same_series y' x.
Proof.
  intros Htab Htab' Hp Hp' Ex Ey.
  destruct (club_run payoffs payoff Htab params x0 y0 t_end Hp)
    as (t & x & y & Hrun & Ht & Hlx & Hly & Hx0 & Hy0 & Hsteps).
  destruct (club_run payoffs' _ Htab' params' x0' y0' t_end Hp')
    as (t' & x' & y' & Hrun' & Ht' & Hlx' & Hly' & Hx0' & Hy0' & Hsteps').
  rewrite Ht in Ht'. injection Ht' as <-.
  exists t, x, y, x', y'. do 2 (split; [done|]).
  apply (chain_same
           (Spec.next_x (Laws.exchange payoff) (t_end / 999))
           (Spec.next_y (Laws.exchange payoff) (t_end / 999))
           (λ a b, Spec.next_y payoff (t_end / 999) b a)
           (λ a b, Spec.next_x payoff (t_end / 999) b a)
           x' y' y x 999); [done|done|done|done| | | | | | ].
  - by apply club_steps_chain.
  - apply chain_flip. by apply club_steps_chain.
  - intros a b a' b' Ea Eb.
    exact (proj1 (next_exchange payoff _ a b a' b' Ea Eb)).
  - intros a b a' b' Ea Eb.
    exact (proj2 (next_exchange payoff _ a b a' b' Ea Eb)).
  - intros v w Hv Hw. rewrite Hx0' in Hv; injection Hv as <-.
    rewrite Hy0 in Hw; by injection Hw as <-.
  - intros v w Hv Hw. rewrite Hy0' in Hv; injection Hv as <-.
    rewrite Hx0 in Hw; by injection Hw as <-.
Qed.

Lemma club_exchange_symmetry_witness :
  ∃ t x y x' y',
    Club.simulate Club.payoffs
      {[ "x0" := 1 # 4; "y0" := 3 # 4; "t_end" := 10 ]} = Returns (t, x, y) ∧
    Club.simulate Club.payoffs
      {[ "x0" := 3 # 4; "y0" := 1 # 4; "t_end" := 10 ]} = Returns (t, x', y') ∧
    Laws.same_series x' y ∧ Laws.same_series y' x.
Proof.
  apply (club_exchange_symmetry Club.payoffs Club.payoffs Spec.repo_payoff
           _ _ (1 # 4) (3 # 4) (3 # 4) (1 # 4) 10);
    [table | table | fields | fields | reflexivity | reflexivity].
Defined.



Lemma next_symmetric payoff (dt a b a' b' : Q) :
  (∀ s r, (payoff s r).1 == (payoff r s).2) →
  a == a' → b == b' →
  Spec.next_x payoff dt a b == Spec.next_y payoff dt b' a' ∧
  Spec.next_y payoff dt a b == Spec.next_x payoff dt b' a'.
Proof.
  intros Hsym Ea Eb. rewrite <- Ea, <- Eb.
  unfold Spec.next_x, Spec.next_y, Spec.rate_x, Spec.rate_y,
    Spec.average_A, Spec.average_B, Spec.payoff_A, Spec.payoff_B.
  rewrite !(Hsym Spec.Youth), !(Hsym Spec.Star). done.
Qed.

(** X5.  In a game that looks the same to both populations, A's payoff at
    [(s, r)] being B's payoff at [(r, s)], equal initial probabilities give
    equal series: [x[i] = y[i]] for every [i]. *)
Theorem club_diagonal
    (payoffs : gmap (string * string) (Q * Q))
    (payoff : Spec.strategy → Spec.strategy → Q * Q)
    (params : gmap string Q) (x0 y0 t_end : Q) :
  Spec.tabulates payoffs payoff →
  (∀ s r, (payoff s r).1 == (payoff r s).2) →
  Spec.club_params params x0 y0 t_end →
  x0 == y0 →
  ∃ t x y,
    Club.simulate payoffs params = Returns (t, x, y) ∧
    length x = 1000%nat ∧ Laws.same_series x y.
Proof.
  intros Htab Hsym Hp E0.
  destruct (club_run payoffs payoff Htab params x0 y0 t_end Hp)
    as (t & x & y & Hrun & Ht & Hlx & Hly & Hx0 & Hy0 & Hsteps).
  exists t, x, y. do 2 (split; [done|]).
  apply (chain_same
           (Spec.next_x payoff (t_end / 999))
           (Spec.next_y payoff (t_end / 999))
           (λ a b, Spec.next_y payoff (t_end / 999) b a)
           (λ a b, Spec.next_x payoff (t_end / 999) b a)
           x y y x 999); [done|done|done|done| | | | | | ].
  - by apply club_steps_chain.
  - apply chain_flip. by apply club_steps_chain.
  - intros a b a' b' Ea Eb.
    exact (proj1 (next_symmetric payoff _ a b a' b' Hsym Ea Eb)).
  - intros a b a' b' Ea Eb.
    exact (proj2 (next_symmetric payoff _ a b a' b' Hsym Ea Eb)).
  - intros v w Hv Hw. rewrite Hx0 in Hv; injection Hv as <-.
    rewrite Hy0 in Hw; by injection Hw as <-.
  - intros v w Hv Hw. rewrite Hy0 in Hv; injection Hv as <-.
    rewrite Hx0 in Hw; injection Hw as <-. by symmetry.
Qed.

Lemma club_diagonal_witness :
  ∃ t x y,
    Club.simulate Club.payoffs
      {[ "x0" := 1 # 5; "y0" := 1 # 5; "t_end" := 40 ]} = Returns (t, x, y) ∧
    length x = 1000%nat ∧ Laws.same_series x y.
Proof.
  apply (club_diagonal Club.payoffs Spec.repo_payoff _ (1 # 5) (1 # 5) 40);
    [table | intros [] []; reflexivity | fields | reflexivity].
Defined.



(** ** Direction of motion *)






Lemma step_x_shape payoff (dt x y : Q) :
  x + Spec.rate_x payoff x y * dt
  == x + x * (1 - x) * (1 - x) * dt
         * (Spec.payoff_A payoff Spec.Youth y - Spec.payoff_A payoff Spec.Star y).
Proof. rewrite rate_x_advantage. ring. Qed.









Lemma horizon_step_nonneg (t_end : Q) : 0 <= t_end → 0 <= t_end / 999.
Proof. intros H. apply Qle_shift_div_l; lra. Qed.




(** ** Regions of the repository's game *)

Lemma repo_advantage_A (y : Q) :
  Spec.payoff_A Spec.repo_payoff Spec.Youth y
  - Spec.payoff_A Spec.repo_payoff Spec.Star y == 1 - 2 * y.
Proof. unfold Spec.payoff_A. simpl. ring. Qed.


(** A property of the pair of samples that the first pair has and every
    step keeps holds for every pair. *)
Lemma chain_invariant (fx fy : Q → Q → Q) (x y : list Q) (m : nat)
    (P : Q → Q → Prop) :
  length x = S m →
  Laws.chain fx fy x y m →
  (∀ v w, x !! 0%nat = Some v → y !! 0%nat = Some w → P v w) →
  (∀ a b a' b', P a b → a' == fx a b → b' == fy a b → P a' b') →
  ∀ j v w, x !! j = Some v → y !! j = Some w → P v w.
Proof.
  intros Hlx C H0 Hkeep. induction j as [|j IH]; intros v w Hv Hw.
  - by apply H0.
  - assert (j < m)%nat as Hj by (apply lookup_lt_Some in Hv; lia).
    destruct (C j Hj) as (a & b & a' & b' & Ha & Hb & Ha' & Hb' & Ex & Ey).
    rewrite Ha' in Hv; injection Hv as <-.
    rewrite Hb' in Hw; injection Hw as <-.
    apply (Hkeep a b); [by apply IH|done..].
Qed.









Lemma clamp_inside (v : Q) : 0 <= v <= 1 → Spec.clamp v 0 1 == v.
Proof.
  intros Hv. unfold Spec.clamp.
  destruct (Qlt_le_dec v 0); [lra|]. destruct (Qlt_le_dec 1 v); lra.
Qed.

Lemma repo_symmetric (s r : Spec.strategy) :
  (Spec.repo_payoff s r).1 == (Spec.repo_payoff r s).2.
Proof. destruct s, r; reflexivity. Qed.

(** One step of the repository's game on the diagonal, with a step of at
    most 1/2: the pair stays on the diagonal and moves toward 1/2 without
    crossing it. *)
Lemma repo_diagonal_step (dt a b a' b' : Q) :
  0 <= dt <= 1 # 2 → a == b → 0 <= a <= 1 →
  a' == Spec.next_x Spec.repo_payoff dt a b →
  b' == Spec.next_y Spec.repo_payoff dt a b →
  a' == b' ∧
  (a <= 1 # 2 → a <= a' <= 1 # 2) ∧ (1 # 2 <= a → 1 # 2 <= a' <= a).
Proof.
  intros Hdt Eab Ha Ea Eb. split.
  - rewrite Ea, Eb.
    rewrite (proj1 (next_symmetric Spec.repo_payoff dt a b a b
                      repo_symmetric ltac:(reflexivity) ltac:(reflexivity))).
    by rewrite Eab.
  - assert (a' == Spec.clamp (a + a * (1 - a) * (1 - a) * dt * (1 - 2 * a)) 0 1)
      as Ea'.
    { rewrite Ea. unfold Spec.next_x.
      rewrite step_x_shape, repo_advantage_A, <- Eab. reflexivity. }
    set (w := a * (1 - a) * (1 - a) * dt) in Ea'.
    assert (0 <= w <= 1 # 2) as Hw.
    { unfold w.
      assert (0 <= a * (1 - a) <= 1) by nra.
      assert (0 <= a * (1 - a) * (1 - a) <= 1) by nra.
      nra. }
    split; intros Hside.
    + assert (a <= a + w * (1 - 2 * a) <= 1 # 2) as Hv by nra.
      rewrite clamp_inside in Ea' by lra. lra.
    + assert (1 # 2 <= a + w * (1 - 2 * a) <= a) as Hv by nra.
      rewrite clamp_inside in Ea' by lra. lra.
Qed.

(** X10.  With the repository's payoff table, equal initial probabilities
    in [[0, 1]] and a horizon between 0 and 40 (the range of the horizon
    slider), the two series coincide and move toward 1/2 without crossing
    it: from below, [x] never falls and stays in [[0, 1/2]]; from above,
    [x] never rises and stays in [[1/2, 1]]. *)
Theorem club_repo_diagonal (params : gmap string Q) (x0 y0 t_end : Q) :
  Spec.club_params params x0 y0 t_end →
  x0 == y0 → 0 <= x0 <= 1 → 0 <= t_end <= 40 →
  ∃ t x y,
    Club.simulate Club.payoffs params = Returns (t, x, y) ∧
    length x = 1000%nat ∧
    Laws.same_series x y ∧
    (x0 <= 1 # 2 → Laws.within 0 (1 # 2) x ∧ Laws.nondecreasing x) ∧
    (1 # 2 <= x0 → Laws.within (1 # 2) 1 x ∧ Laws.nonincreasing x).
Proof.
  intros Hp E0 Bx Hte.
  destruct (club_run Club.payoffs Spec.repo_payoff repo_tabulates
              params x0 y0 t_end Hp)
    as (t & x & y & Hrun & _ & Hlx & Hly & Hx0 & Hy0 & Hsteps).
  exists t, x, y. do 2 (split; [done|]).
  pose proof (club_steps_chain _ _ _ _ _ Hsteps) as C.
  assert (0 <= t_end / 999 <= 1 # 2) as Hdt.
  { split; [apply horizon_step_nonneg; lra|].
    apply Qle_shift_div_r; lra. }
  assert (∀ j v w, x !! j = Some v → y !! j = Some w →
            v == w ∧ 0 <= v <= 1) as Hdiag.
  { apply (chain_invariant _ _ x y 999 _ Hlx C).
    - intros v w Hv Hw. rewrite Hx0 in Hv; injection Hv as <-.
      rewrite Hy0 in Hw; by injection Hw as <-.
    - intros a b a' b' [Eab Ha] Ea Eb.
      destruct (repo_diagonal_step (t_end / 999) a b a' b')
        as (E' & Hlow & Hhigh); [done..|].
      split; [done|].
      destruct (Qlt_le_dec a (1 # 2)); [destruct Hlow|destruct Hhigh]; lra. }
  split.
  { apply Forall2_same_length_lookup. split; [congruence|].
    intros j v w Hv Hw. by destruct (Hdiag j v w). }
  split; intros Hside.
  - assert (∀ j v w, x !! j = Some v → y !! j = Some w →
              v == w ∧ 0 <= v <= 1 # 2) as Hlow.
    { apply (chain_invariant _ _ x y 999 _ Hlx C).
      - intros v w Hv Hw. rewrite Hx0 in Hv; injection Hv as <-.
        rewrite Hy0 in Hw; injection Hw as <-. split; [done|lra].
      - intros a b a' b' [Eab Ha] Ea Eb.
        destruct (repo_diagonal_step (t_end / 999) a b a' b')
          as (E' & Hl & _); [done|done|lra|done|done|].
        split; [done|]. destruct Hl; lra. }
    split.
    + apply Forall_lookup. intros j v Hv.
      destruct (lookup_lt_is_Some_2 y j) as [w Hw];
        [apply lookup_lt_Some in Hv; lia|].
      by destruct (Hlow j v w).
    + intros i vi vi' Hi Hi'.
      destruct (Hsteps i) as (a & b & a' & b' & Ha & Hb & Ha' & Hb' & Ex & Ey);
        [apply lookup_lt_Some in Hi'; lia|].
      rewrite Ha in Hi; injection Hi as <-.
      rewrite Ha' in Hi'; injection Hi' as <-.
      destruct (Hlow i a b Ha Hb) as [Eab Hab].
      destruct (repo_diagonal_step (t_end / 999) a b a' b')
        as (_ & Hl & _); [done|done|lra|done|done|].
      destruct Hl; lra.
  - assert (∀ j v w, x !! j = Some v → y !! j = Some w →
              v == w ∧ 1 # 2 <= v <= 1) as Hhigh.
    { apply (chain_invariant _ _ x y 999 _ Hlx C).
      - intros v w Hv Hw. rewrite Hx0 in Hv; injection Hv as <-.
        rewrite Hy0 in Hw; injection Hw as <-. split; [done|lra].
      - intros a b a' b' [Eab Ha] Ea Eb.
        destruct (repo_diagonal_step (t_end / 999) a b a' b')
          as (E' & _ & Hh); [done|done|lra|done|done|].
        split; [done|]. destruct Hh; lra. }
    split.
    + apply Forall_lookup. intros j v Hv.
      destruct (lookup_lt_is_Some_2 y j) as [w Hw];
        [apply lookup_lt_Some in Hv; lia|].
      by destruct (Hhigh j v w).
    + intros i vi vi' Hi Hi'.
      destruct (Hsteps i) as (a & b & a' & b' & Ha & Hb & Ha' & Hb' & Ex & Ey);
        [apply lookup_lt_Some in Hi'; lia|].
      rewrite Ha in Hi; injection Hi as <-.
      rewrite Ha' in Hi'; injection Hi' as <-.
      destruct (Hhigh i a b Ha Hb) as [Eab Hab].
      destruct (repo_diagonal_step (t_end / 999) a b a' b')
        as (_ & _ & Hh); [done|done|lra|done|done|].
      destruct Hh; lra.
Qed.

Lemma club_repo_diagonal_witness :
  ∃ t x y,
    Club.simulate Club.payoffs
      {[ "x0" := 1 # 5; "y0" := 1 # 5; "t_end" := 40 ]} = Returns (t, x, y) ∧
    length x = 1000%nat ∧
    Laws.same_series x y ∧
    ((1 # 5) <= 1 # 2 → Laws.within 0 (1 # 2) x ∧ Laws.nondecreasing x) ∧
    (1 # 2 <= 1 # 5 → Laws.within (1 # 2) 1 x ∧ Laws.nonincreasing x).
Proof.
  apply (club_repo_diagonal _ (1 # 5) (1 # 5) 40);
    [fields | reflexivity | lra | lra].
Defined.

(** ** The player state *)

(** A property that the first sample has and every step keeps holds for
    every sample. *)
Lemma series_invariant (f : Q → Q) (l : list Q) (P : Q → Prop) :
  (∀ i v v', l !! i = Some v → l !! S i = Some v' → v' == f v) →
  (∀ v, l !! 0%nat = Some v → P v) →
  (∀ a a', P a → a' == f a → P a') →
  ∀ j v, l !! j = Some v → P v.
Proof.
  intros Hstep H0 Hkeep. induction j as [|j IH]; intros v Hv.
  - by apply H0.
  - destruct (lookup_lt_is_Some_2 l j) as [a Ha];
      [apply lookup_lt_Some in Hv; lia|].
    apply (Hkeep a); [by apply IH|]. by apply (Hstep j).
Qed.

(** The Euler update in terms of [replicator_dynamics] alone. *)
Lemma player_closed_step (a0 d0 b pGrow mGrow dt : Q)
    (x fP fM a d : list Q) (i : nat) (xi xi' : Q) :
  Spec.player_sample a0 d0 b pGrow mGrow x fP fM a d i →
  Spec.player_step dt x fP fM i →
  x !! i = Some xi → x !! S i = Some xi' →
  xi' == xi + (Player.replicator_dynamics xi a0 d0 b pGrow mGrow).1.1.1.1 * dt.
Proof.
  intros (v & vP & vM & va & vd & H1 & H2 & H3 & H4 & H5 & Ea & Ed & EP & EM)
         (w & wP & wM & w' & K1 & K2 & K3 & K4 & Ex) Hxi Hxi'.
  rewrite Hxi in H1; injection H1 as <-.
  rewrite Hxi in K1; injection K1 as <-.
  rewrite Hxi' in K4; injection K4 as <-.
  rewrite H2 in K2; injection K2 as <-.
  rewrite H3 in K3; injection K3 as <-.
  unfold Player.replicator_dynamics. cbn [fst].
  rewrite Ex, EP, EM, Ea, Ed. ring.
Qed.








(** The run of [solve_ode] as an orbit of one map on [x]. *)
Lemma player_orbit (params : gmap string Q) (a0 d0 b pGrow mGrow x0 t_end : Q) :
  Spec.player_params params a0 d0 b pGrow mGrow x0 t_end →
  ∃ t x fP fM a d,
    Player.solve_ode params = Returns (t, x, fP, fM, a, d) ∧
    length x = 1000%nat ∧ length fP = 1000%nat ∧ length fM = 1000%nat ∧
    x !! 0%nat = Some x0 ∧
    (∀ i, (i < 1000)%nat →
       Spec.player_sample a0 d0 b pGrow mGrow x fP fM a d i) ∧
    (∀ i v v', x !! i = Some v → x !! S i = Some v' →
       v' == v + (Player.replicator_dynamics v a0 d0 b pGrow mGrow).1.1.1.1
                 * (t_end / 999)).
Proof.
  intros Hp.
  destruct (player_run params a0 d0 b pGrow mGrow x0 t_end Hp)
    as (t & x & fP & fM & a & d & Hrun & _ & Hlx & HlP & HlM & _ & _ & Hx0
        & Hsamples & Hsteps).
  exists t, x, fP, fM, a, d. do 6 (split; [done|]).
  intros i v v' Hv Hv'.
  assert (i < 999)%nat as Hi by (apply lookup_lt_Some in Hv'; lia).
  apply (player_closed_step a0 d0 b pGrow mGrow _ x fP fM a d i v v');
    [apply Hsamples; lia|by apply Hsteps|done..].
Qed.



(** One player step with coefficients and step inside the ranges of the
    sliders keeps the unit interval. *)
Lemma player_step_in_unit (a0 d0 b pGrow mGrow v dt : Q) :
  0 <= a0 <= 5 → 0 <= d0 <= 5 → 0 <= b <= 5 →
  0 <= pGrow <= 10 → 0 <= mGrow <= 10 →
  0 <= v <= 1 → 0 <= dt <= 50 # 999 →
  0 <= v + (Player.replicator_dynamics v a0 d0 b pGrow mGrow).1.1.1.1 * dt
  <= 1.
Proof.
  intros Ha0 Hd0 Hb HpG HmG Hv Hdt.
  unfold Player.replicator_dynamics. cbn [fst].
  assert (0 <= pGrow * v <= 10) by nra.
  assert (0 <= mGrow * (1 - v) <= 10) by nra.
  set (a := a0 + pGrow * v) in *. set (d := d0 + mGrow * (1 - v)) in *.
  assert (0 <= a <= 15) by (unfold a; lra).
  assert (0 <= d <= 15) by (unfold d; lra).
  assert (0 <= a * v + b * (1 - v) <= 15) by nra.
  assert (0 <= b * v + d * (1 - v) <= 15) by nra.
  set (g := (a * v + b * (1 - v)) - (b * v + d * (1 - v))) in *.
  assert (-15 <= g <= 15) by (unfold g; lra).
  assert (-1 <= g * dt <= 1) by nra.
  set (h := g * dt) in *.
  assert (v * (1 - v) * g * dt == v * (1 - v) * h) as -> by (unfold h; ring).
  assert (0 <= v * (1 - v)) by nra.
  split; nra.
Qed.

(** X14.  Inside the ranges of the sliders the unclamped player state
    stays a proportion: with [a0], [d0], [b] in [[0, 5]], [pGrow], [mGrow]
    in [[0, 10]], [x0] in [[0, 1]] and [t_end] in [[0, 50]], every sample
    of [x] lies in [[0, 1]]. *)
Theorem player_in_unit_within_sliders
    (params : gmap string Q) (a0 d0 b pGrow mGrow x0 t_end : Q) :
  Spec.player_params params a0 d0 b pGrow mGrow x0 t_end →
  0 <= a0 <= 5 → 0 <= d0 <= 5 → 0 <= b <= 5 →
  0 <= pGrow <= 10 → 0 <= mGrow <= 10 →
  0 <= x0 <= 1 → 0 <= t_end <= 50 →
  ∃ t x fP fM a d,
    Player.solve_ode params = Returns (t, x, fP, fM, a, d) ∧
    length x = 1000%nat ∧ Spec.in_unit x.
Proof.
  intros Hp Ha0 Hd0 Hb HpG HmG Hx0 Hte.
  destruct (player_orbit params a0 d0 b pGrow mGrow x0 t_end Hp)
    as (t & x & fP & fM & a & d & Hrun & Hlx & _ & _ & H0 & _ & Horbit).
  exists t, x, fP, fM, a, d. do 2 (split; [done|]).
  assert (0 <= t_end / 999 <= 50 # 999) as Hdt.
  { split; [apply horizon_step_nonneg; lra|].
    apply Qle_shift_div_r; lra. }
  apply Forall_lookup.
  apply (series_invariant
           (λ v, v + (Player.replicator_dynamics v a0 d0 b pGrow mGrow).1.1.1.1
                     * (t_end / 999)) x (λ v, 0 <= v <= 1)).
  - done.
  - intros v Hv. rewrite H0 in Hv. by injection Hv as <-.
  - intros v v' Hv E. rewrite E. by apply player_step_in_unit.
Qed.

Lemma player_in_unit_within_sliders_witness :
  ∃ t x fP fM a d,
    Player.solve_ode Player.params = Returns (t, x, fP, fM, a, d) ∧
    length x = 1000%nat ∧ Spec.in_unit x.
Proof.
  apply (player_in_unit_within_sliders Player.params
           (5 # 2) 2 (7 # 5) 1 5 (3 # 5) 10);
    [fields | lra | lra | lra | lra | lra | lra | lra].
Defined.

(** Outside those ranges the player state can leave the unit interval:
    with [a0 = 100], the other coefficients 0, [x0 = 1/2] and
    [t_end = 999], the second sample of [x] is above 1. *)
Example player_leaves_unit :
  ∃ t x fP fM a d v,
    Player.solve_ode
      {[ "a0" := 100; "d0" := 0; "b" := 0; "pGrow" := 0; "mGrow" := 0;
         "x0" := 1 # 2; "t_end" := 999 ]} = Returns (t, x, fP, fM, a, d) ∧
    x !! 0%nat = Some (1 # 2) ∧ x !! 1%nat = Some v ∧ 1 < v.
Proof.
  destruct (player_orbit
              {[ "a0" := 100; "d0" := 0; "b" := 0; "pGrow" := 0; "mGrow" := 0;
                 "x0" := 1 # 2; "t_end" := 999 ]} 100 0 0 0 0 (1 # 2) 999)
    as (t & x & fP & fM & a & d & Hrun & Hlx & _ & _ & H0 & _ & Horbit);
    [fields|].
  destruct (lookup_lt_is_Some_2 x 1) as [v Hv]; [lia|].
  exists t, x, fP, fM, a, d, v. do 3 (split; [done|]).
  rewrite (Horbit 0%nat _ _ H0 Hv).
  unfold Player.replicator_dynamics. cbn [fst].
  assert (999 / 999 == 1) as -> by reflexivity. lra.
Qed.

(** ** The plotted series *)

Lemma joint_series_lengths (x y : list Q) (n : nat) :
  length x = n → length y = n →
  let '(j1, j2, j3, j4) := Club.joint_series x y in
  length j1 = n ∧ length j2 = n ∧ length j3 = n ∧ length j4 = n.
Proof.
  intros Hx Hy. unfold Club.joint_series, np.mul, np.rsub.
  rewrite !length_zip_with, !length_fmap, Hx, Hy.
  repeat split; lia.
Qed.




(** ** The slider callback *)

Lemma refresh_keys (params : list (string * Q)) (sliders : gmap string Q) :
  (Script.refresh params sliders).1.*1 = params.*1.
Proof.
  induction params as [|[k v] rest IH]; [done|]. simpl.
  destruct (sliders !! k) as [w|]; [|done].
  destruct (Script.refresh rest sliders) as [rest' r]. simpl in *.
  by f_equal.
Qed.

Lemma refresh_returns (params : list (string * Q)) (sliders : gmap string Q) :
  Laws.has_keys sliders params.*1 →
  (Script.refresh params sliders).2 = Returns () ∧
  Forall (λ kv, sliders !! kv.1 = Some kv.2) (Script.refresh params sliders).1.
Proof.
  unfold Laws.has_keys.
  induction params as [|[k v] rest IH]; intros Hk; [by split|].
  rewrite fmap_cons, Forall_cons in Hk. destruct Hk as [[w Hw] Hrest].
  simpl in *. rewrite Hw.
  destruct (IH Hrest) as [Hr Hall].
  destruct (Script.refresh rest sliders) as [rest' r]. simpl in *.
  split; [done|]. by apply Forall_cons.
Qed.

(** The loop stops at the first parameter without a slider: the entries
    before it carry the slider values, the others are untouched. *)
Lemma refresh_raises (before after : list (string * Q)) (name : string)
    (v : Q) (sliders : gmap string Q) :
  Laws.has_keys sliders before.*1 → sliders !! name = None →
  ∃ before',
    Script.refresh (before ++ (name, v) :: after) sliders
    = (before' ++ (name, v) :: after, Raises KeyError) ∧
    before'.*1 = before.*1 ∧
    Forall (λ kv, sliders !! kv.1 = Some kv.2) before'.
Proof.
  unfold Laws.has_keys. intros Hk Hnone.
  induction before as [|[k u] rest IH].
  - exists []. simpl. by rewrite Hnone.
  - rewrite fmap_cons, Forall_cons in Hk. destruct Hk as [[w Hw] Hrest].
    destruct (IH Hrest) as (rest' & Hr & Hkeys & Hall).
    exists ((k, w) :: rest'). simpl in *. rewrite Hw, Hr. simpl.
    split; [done|]. split; [by f_equal|by apply Forall_cons].
Qed.

Lemma refresh_fixed (params : list (string * Q)) (sliders : gmap string Q) :
  Forall (λ kv, sliders !! kv.1 = Some kv.2) params →
  Script.refresh params sliders = (params, Returns ()).
Proof.
  induction params as [|[k v] rest IH]; intros Hall; [done|].
  apply Forall_cons in Hall as [Hk Hrest]. simpl in *.
  by rewrite Hk, (IH Hrest).
Qed.

Lemma refresh_idempotent (params : list (string * Q)) (sliders : gmap string Q) :
  Script.refresh (Script.refresh params sliders).1 sliders
  = Script.refresh params sliders.
Proof.
  induction params as [|[k v] rest IH]; [done|]. simpl.
  destruct (sliders !! k) as [w|] eqn:Hk.
  - destruct (Script.refresh rest sliders) as [rest' r] eqn:Er.
    simpl in *. by rewrite Hk, IH.
  - simpl. by rewrite Hk.
Qed.

(** A refreshed dictionary answers a lookup of one of its keys with the
    slider value. *)
Lemma refreshed_lookup (params : list (string * Q)) (sliders : gmap string Q)
    (k : string) :
  Forall (λ kv, sliders !! kv.1 = Some kv.2) params →
  k ∈ params.*1 →
  (list_to_map params : gmap string Q) !! k = sliders !! k.
Proof.
  induction params as [|[k' w] rest IH]; intros Hall Hin.
  - by apply elem_of_nil in Hin.
  - apply Forall_cons in Hall as [Hk Hrest]. simpl in *.
    destruct (decide (k' = k)) as [->|Hne].
    + by rewrite lookup_insert_eq.
    + rewrite lookup_insert_ne by done. apply IH; [done|].
      apply elem_of_cons in Hin as [?|?]; [congruence|done].
Qed.

(** [simulate] reads its dictionary at three keys only. *)
Lemma club_simulate_ext (payoffs : gmap (string * string) (Q * Q))
    (p q : gmap string Q) :
  Forall (λ k, p !! k = q !! k) Laws.club_keys →
  Club.simulate payoffs p = Club.simulate payoffs q.
Proof.
  unfold Laws.club_keys. rewrite !Forall_cons. intros (Ht & Hx & Hy & _).
  unfold Club.simulate, getitem. by rewrite Ht, Hx, Hy.
Qed.

Lemma for_each_ext {S : Type} (f g : Z → S → outcome S) (l : list Z) (s : S) :
  (∀ i s, f i s = g i s) → for_each l f s = for_each l g s.
Proof.
  intros Hfg. revert s. induction l as [|i l IH]; intros s; [done|].
  simpl. rewrite Hfg. destruct (g i s); simpl; [apply IH|done].
Qed.

(** [solve_ode] reads its dictionary at seven keys only. *)
Lemma player_solve_ext (p q : gmap string Q) :
  Forall (λ k, p !! k = q !! k) Laws.player_keys →
  Player.solve_ode p = Player.solve_ode q.
Proof.
  unfold Laws.player_keys. rewrite !Forall_cons.
  intros (Ht & Hx & Ha0 & Hd0 & Hb & HpG & HmG & _).
  assert (∀ v, Player.call_dynamics p v = Player.call_dynamics q v) as Hcall.
  { intros v. unfold Player.call_dynamics, getitem.
    by rewrite Ha0, Hd0, Hb, HpG, HmG. }
  assert (∀ dt i s, Player.solve_body p dt i s = Player.solve_body q dt i s)
    as Hbody.
  { intros dt i s. unfold Player.solve_body.
    destruct (load (Player.arr_x s) (i - 1)); [|done]. run.
    by rewrite Hcall. }
  unfold Player.solve_ode, getitem. rewrite Ht, Hx.
  destruct (q !! "t_end") as [te|]; [|done]. run.
  destruct (np.linspace 0 te 1000) as [t|]; [|done]. run.
  destruct (q !! "x0") as [x0|]; [|done]. run.
  destruct (store (np.zeros (length t)) 0 x0) as [x|]; [|done]. run.
  destruct (load t 1) as [t1|]; [|done]. run.
  destruct (load t 0) as [t0|]; [|done]. run.
  rewrite (for_each_ext _ (Player.solve_body q (t1 - t0))) by apply Hbody.
  destruct (for_each _ _ _) as [s|]; [|done]. run.
  destruct (load (Player.arr_x s) (-1)) as [xl|]; [|done]. run.
  by rewrite Hcall.
Qed.

Lemma has_keys_sub {V} (d : gmap string V) (ks ks' : list string) :
  Laws.has_keys d ks → Forall (λ k, k ∈ ks) ks' → Laws.has_keys d ks'.
Proof.
  unfold Laws.has_keys. rewrite !Forall_forall. intros Hd Hsub k Hk. auto.
Qed.

Lemma refreshed_agrees (params : list (string * Q)) (sliders : gmap string Q)
    (ks : list string) :
  Forall (λ kv, sliders !! kv.1 = Some kv.2) params →
  Forall (λ k, k ∈ params.*1) ks →
  Forall (λ k, (list_to_map params : gmap string Q) !! k = sliders !! k) ks.
Proof.
  intros Hall Hks. eapply Forall_impl; [exact Hks|].
  intros k Hk. by apply refreshed_lookup.
Qed.

(** Side conditions of a concrete callback: every listed key has a slider,
    every key read is a parameter. *)
Ltac keys :=
  unfold Laws.has_keys;
  repeat (apply Forall_cons_2; [eexists; vm_compute; reflexivity|]);
  apply Forall_nil_2.
Ltac members :=
  repeat (apply Forall_cons_2; [by repeat constructor|]); apply Forall_nil_2.

(** X16.  The club callback.  When every parameter has a slider and the
    parameters include [t_end], [x0] and [y0], [update] returns, leaves the
    parameter dictionary with the same keys in the same order and the
    slider values, and plots the curves of the run that [simulate] makes
    from the slider values: no earlier parameter value survives. *)
Theorem club_update_refreshes
    (payoffs : gmap (string * string) (Q * Q))
    (payoff : Spec.strategy → Spec.strategy → Q * Q)
    (params : list (string * Q)) (sliders : gmap string Q) :
  Spec.tabulates payoffs payoff →
  Laws.has_keys sliders params.*1 →
  Forall (λ k, k ∈ params.*1) Laws.club_keys →
  ∃ params' t x y,
    ClubScript.update payoffs params sliders
    = (params', Returns (ClubScript.curves t x y)) ∧
    params'.*1 = params.*1 ∧
    Forall (λ kv, sliders !! kv.1 = Some kv.2) params' ∧
    Club.simulate payoffs sliders = Returns (t, x, y).
Proof.
  intros Htab Hk Hsub.
  destruct (refresh_returns params sliders Hk) as [Hr Hall].
  pose proof (refresh_keys params sliders) as Hkeys.
  apply (has_keys_sub _ _ _ Hk) in Hsub as Hready.
  apply has_keys_club_params in Hready as (x0 & y0 & te & Hc).
  destruct (club_run payoffs payoff Htab sliders x0 y0 te Hc)
    as (t & x & y & Hrun & _).
  unfold ClubScript.update.
  destruct (Script.refresh params sliders) as [params' r]. simpl in Hr, Hall, Hkeys.
  subst r. run.
  rewrite (club_simulate_ext payoffs (list_to_map params') sliders)
    by (apply refreshed_agrees; [done|by rewrite Hkeys]).
  rewrite Hrun. run. by exists params', t, x, y.
Qed.

Lemma club_update_refreshes_witness :
  ∃ params' t x y,
    ClubScript.update Club.payoffs ClubScript.params
      {[ "x0" := 1 # 4; "y0" := 3 # 4; "t_end" := 20 ]}
    = (params', Returns (ClubScript.curves t x y)) ∧
    params'.*1 = ClubScript.params.*1 ∧
    Forall (λ kv, ({[ "x0" := 1 # 4; "y0" := 3 # 4; "t_end" := 20 ]}
                   : gmap string Q) !! kv.1 = Some kv.2) params' ∧
    Club.simulate Club.payoffs
      {[ "x0" := 1 # 4; "y0" := 3 # 4; "t_end" := 20 ]} = Returns (t, x, y).
Proof.
  apply (club_update_refreshes Club.payoffs Spec.repo_payoff);
    [table | keys | members].
Defined.

(** X17.  The player callback.  When every parameter has a slider and the
    parameters include the seven keys [solve_ode] reads, [update] returns,
    leaves the parameter dictionary with the same keys in the same order
    and the slider values, and plots the curves of the run that
    [solve_ode] makes from the slider values. *)
Theorem player_update_refreshes
    (params : list (string * Q)) (sliders : gmap string Q) :
  Laws.has_keys sliders params.*1 →
  Forall (λ k, k ∈ params.*1) Laws.player_keys →
  ∃ params' t x fP fM a d,
    PlayerScript.update params sliders
    = (params', Returns (PlayerScript.curves t x fP fM a d)) ∧
    params'.*1 = params.*1 ∧
    Forall (λ kv, sliders !! kv.1 = Some kv.2) params' ∧
    Player.solve_ode sliders = Returns (t, x, fP, fM, a, d).
Proof.
  intros Hk Hsub.
  destruct (refresh_returns params sliders Hk) as [Hr Hall].
  pose proof (refresh_keys params sliders) as Hkeys.
  apply (has_keys_sub _ _ _ Hk) in Hsub as Hready.
  apply has_keys_player_params in Hready
    as (a0 & d0 & b & pG & mG & x0 & te & Hp).
  destruct (player_run sliders a0 d0 b pG mG x0 te Hp)
    as (t & x & fP & fM & a & d & Hrun & _).
  unfold PlayerScript.update.
  destruct (Script.refresh params sliders) as [params' r]. simpl in Hr, Hall, Hkeys.
  subst r. run.
  rewrite (player_solve_ext (list_to_map params') sliders)
    by (apply refreshed_agrees; [done|by rewrite Hkeys]).
  rewrite Hrun. run. by exists params', t, x, fP, fM, a, d.
Qed.

Lemma player_update_refreshes_witness :
  ∃ params' t x fP fM a d,
    PlayerScript.update PlayerScript.params
      {[ "a0" := 1; "d0" := 1; "b" := 2; "pGrow" := 3; "mGrow" := 3;
         "x0" := 1 # 5; "t_end" := 50 ]}
    = (params', Returns (PlayerScript.curves t x fP fM a d)) ∧
    params'.*1 = PlayerScript.params.*1 ∧
    Forall (λ kv, ({[ "a0" := 1; "d0" := 1; "b" := 2; "pGrow" := 3;
                      "mGrow" := 3; "x0" := 1 # 5; "t_end" := 50 ]}
                   : gmap string Q) !! kv.1 = Some kv.2) params' ∧
    Player.solve_ode
      {[ "a0" := 1; "d0" := 1; "b" := 2; "pGrow" := 3; "mGrow" := 3;
         "x0" := 1 # 5; "t_end" := 50 ]} = Returns (t, x, fP, fM, a, d).
Proof.
  apply player_update_refreshes; [keys | members].
Defined.

(** X18.  A parameter without a slider.  Both callbacks then raise
    [KeyError] and plot nothing, after overwriting the parameters that
    come before the first such parameter and leaving it and the later ones
    as they were. *)
Theorem update_missing_slider
    (payoffs : gmap (string * string) (Q * Q))
    (before after : list (string * Q)) (name : string) (v : Q)
    (sliders : gmap string Q) :
  Laws.has_keys sliders before.*1 → sliders !! name = None →
  ∃ before',
    before'.*1 = before.*1 ∧
    Forall (λ kv, sliders !! kv.1 = Some kv.2) before' ∧
    ClubScript.update payoffs (before ++ (name, v) :: after) sliders
    = (before' ++ (name, v) :: after, Raises KeyError) ∧
    PlayerScript.update (before ++ (name, v) :: after) sliders
    = (before' ++ (name, v) :: after, Raises KeyError).
Proof.
  intros Hk Hnone.
  destruct (refresh_raises before after name v sliders Hk Hnone)
    as (before' & Hr & Hkeys & Hall).
  exists before'. do 2 (split; [done|]).
  unfold ClubScript.update, PlayerScript.update. by rewrite Hr.
Qed.

Lemma update_missing_slider_witness :
  ∃ before',
    before'.*1 = [("x0", 1 # 2)].*1 ∧
    Forall (λ kv, ({[ "x0" := 1 # 4; "t_end" := 20 ]} : gmap string Q) !! kv.1
                  = Some kv.2) before' ∧
    ClubScript.update Club.payoffs
      ([("x0", 1 # 2)] ++ ("y0", 1 # 2) :: [("t_end", 10)])
      {[ "x0" := 1 # 4; "t_end" := 20 ]}
    = (before' ++ ("y0", 1 # 2) :: [("t_end", 10)], Raises KeyError) ∧
    PlayerScript.update
      ([("x0", 1 # 2)] ++ ("y0", 1 # 2) :: [("t_end", 10)])
      {[ "x0" := 1 # 4; "t_end" := 20 ]}
    = (before' ++ ("y0", 1 # 2) :: [("t_end", 10)], Raises KeyError).
Proof.
  apply (update_missing_slider Club.payoffs [("x0", 1 # 2)] [("t_end", 10)]
           "y0" (1 # 2) {[ "x0" := 1 # 4; "t_end" := 20 ]});
    [keys | vm_compute; reflexivity].
Defined.

(** X19.  Both callbacks keep the keys of the parameter dictionary and
    their order, whether or not they raise, and calling one again with the
    same slider values changes nothing: same dictionary, same outcome. *)
Theorem update_idempotent
    (payoffs : gmap (string * string) (Q * Q))
    (params : list (string * Q)) (sliders : gmap string Q) :
  (ClubScript.update payoffs params sliders).1.*1 = params.*1 ∧
  (PlayerScript.update params sliders).1.*1 = params.*1 ∧
  ClubScript.update payoffs (ClubScript.update payoffs params sliders).1 sliders
  = ClubScript.update payoffs params sliders ∧
  PlayerScript.update (PlayerScript.update params sliders).1 sliders
  = PlayerScript.update params sliders.
Proof.
  pose proof (refresh_keys params sliders) as Hkeys.
  pose proof (refresh_idempotent params sliders) as Hidem.
  unfold ClubScript.update, PlayerScript.update.
  destruct (Script.refresh params sliders) as [params' r].
  simpl in Hkeys, Hidem. cbn [fst]. rewrite Hidem. done.
Qed.

(** X20.  The curves of both scripts are well formed: a club run gives 8
    curves and a player run 6, and every curve pairs 1000 time samples
    with 1000 values. *)
Theorem curves_well_formed
    (payoffs : gmap (string * string) (Q * Q))
    (payoff : Spec.strategy → Spec.strategy → Q * Q)
    (cparams pparams : gmap string Q)
    (x0 y0 a0 d0 b pGrow mGrow px0 t_end p_end : Q) :
  Spec.tabulates payoffs payoff →
  Spec.club_params cparams x0 y0 t_end →
  Spec.player_params pparams a0 d0 b pGrow mGrow px0 p_end →
  (∃ t x y,
     Club.simulate payoffs cparams = Returns (t, x, y) ∧
     length (ClubScript.curves t x y) = 8%nat ∧
     Forall (λ c, length c.1 = 1000%nat ∧ length c.2 = 1000%nat)
       (ClubScript.curves t x y)) ∧
  (∃ t x fP fM a d,
     Player.solve_ode pparams = Returns (t, x, fP, fM, a, d) ∧
     length (PlayerScript.curves t x fP fM a d) = 6%nat ∧
     Forall (λ c, length c.1 = 1000%nat ∧ length c.2 = 1000%nat)
       (PlayerScript.curves t x fP fM a d)).
Proof.
  intros Htab Hc Hp. split.
  - destruct (club_run payoffs payoff Htab cparams x0 y0 t_end Hc)
      as (t & x & y & Hrun & Ht & Hlx & Hly & _).
    destruct (linspace_samples _ _ Ht) as [Hlt _].
    exists t, x, y. split; [done|].
    pose proof (joint_series_lengths x y 1000 Hlx Hly) as Hlen.
    unfold ClubScript.curves.
    destruct (Club.joint_series x y) as [[[j1 j2] j3] j4].
    destruct Hlen as (L1 & L2 & L3 & L4).
    split; [done|].
    repeat (apply Forall_cons_2;
              [cbn [fst snd]; split;
               [done|first [done|unfold np.rsub; by rewrite length_fmap]]|]).
    apply Forall_nil_2.
  - destruct (player_run pparams a0 d0 b pGrow mGrow px0 p_end Hp)
      as (t & x & fP & fM & a & d & Hrun & Ht & Hlx & HlP & HlM & Hla & Hld & _).
    destruct (linspace_samples _ _ Ht) as [Hlt _].
    exists t, x, fP, fM, a, d. split; [done|].
    unfold PlayerScript.curves. split; [done|].
    repeat (apply Forall_cons_2;
              [cbn [fst snd]; split;
               [done|first [done|unfold np.rsub; by rewrite length_fmap]]|]).
    apply Forall_nil_2.
Qed.

Lemma curves_well_formed_witness :
  (∃ t x y,
     Club.simulate Club.payoffs Club.params = Returns (t, x, y) ∧
     length (ClubScript.curves t x y) = 8%nat ∧
     Forall (λ c, length c.1 = 1000%nat ∧ length c.2 = 1000%nat)
       (ClubScript.curves t x y)) ∧
  (∃ t x fP fM a d,
     Player.solve_ode Player.params = Returns (t, x, fP, fM, a, d) ∧
     length (PlayerScript.curves t x fP fM a d) = 6%nat ∧
     Forall (λ c, length c.1 = 1000%nat ∧ length c.2 = 1000%nat)
       (PlayerScript.curves t x fP fM a d)).
Proof.
  apply (curves_well_formed Club.payoffs Spec.repo_payoff
           Club.params Player.params
           (1 # 2) (1 # 2) (5 # 2) 2 (7 # 5) 1 5 (3 # 5) 10 10);
    [table | fields | fields].
Defined.

(** With a zero step a club state inside the unit square does not move. *)
Lemma club_steps_still payoff (dt x0 y0 : Q) (x y : list Q) (m : nat) :
  length x = S m →
  x !! 0%nat = Some x0 → y !! 0%nat = Some y0 →
  0 <= x0 <= 1 → 0 <= y0 <= 1 → dt == 0 →
  Laws.chain (Spec.next_x payoff dt) (Spec.next_y payoff dt) x y m →
  ∀ j v w, x !! j = Some v → y !! j = Some w → v == x0 ∧ w == y0.
Proof.
  intros Hlx Hx0 Hy0 Bx By Edt C.
  apply (chain_invariant _ _ x y m _ Hlx C).
  - intros v w Hv Hw. rewrite Hx0 in Hv; injection Hv as <-.
    rewrite Hy0 in Hw; by injection Hw as <-.
  - intros a b a' b' [Ea Eb] Ea' Eb'.
    rewrite Ea', Eb'. unfold Spec.next_x, Spec.next_y. rewrite Edt.
    split; (etransitivity; [apply clamp_inside; lra|lra]).
Qed.

(** X21.  Zero horizon in the club engine.  With [t_end = 0] and initial
    probabilities in [[0, 1]], [simulate] returns the frozen trajectory:
    every time sample is 0, every sample of [x] is [x0] and every sample
    of [y] is [y0]. *)
Theorem club_zero_horizon
    (payoffs : gmap (string * string) (Q * Q))
    (payoff : Spec.strategy → Spec.strategy → Q * Q)
    (params : gmap string Q) (x0 y0 t_end : Q) :
  Spec.tabulates payoffs payoff →
  Spec.club_params params x0 y0 t_end →
  0 <= x0 <= 1 → 0 <= y0 <= 1 → t_end == 0 →
  ∃ t x y,
    Club.simulate payoffs params = Returns (t, x, y) ∧
    length x = 1000%nat ∧ length y = 1000%nat ∧
    Spec.constant 0 t ∧ Spec.constant x0 x ∧ Spec.constant y0 y.
Proof.
  intros Htab Hp Bx By Ete.
  destruct (club_run payoffs payoff Htab params x0 y0 t_end Hp)
    as (t & x & y & Hrun & Ht & Hlx & Hly & Hx0 & Hy0 & Hsteps).
  exists t, x, y. do 3 (split; [done|]).
  split; [by apply (linspace_zero t_end)|].
  assert (t_end / 999 == 0) as Edt by (rewrite Ete; reflexivity).
  pose proof (club_steps_still payoff (t_end / 999) x0 y0 x y 999
                Hlx Hx0 Hy0 Bx By Edt (club_steps_chain _ _ _ _ _ Hsteps))
    as Hstill.
  split; apply Forall_lookup; intros j v Hv.
  - destruct (lookup_lt_is_Some_2 y j) as [w Hw];
      [apply lookup_lt_Some in Hv; lia|].
    by destruct (Hstill j v w).
  - destruct (lookup_lt_is_Some_2 x j) as [w Hw];
      [apply lookup_lt_Some in Hv; lia|].
    by destruct (Hstill j w v).
Qed.

Lemma club_zero_horizon_witness :
  ∃ t x y,
    Club.simulate Club.payoffs
      {[ "x0" := 1 # 4; "y0" := 3 # 4; "t_end" := 0 ]} = Returns (t, x, y) ∧
    length x = 1000%nat ∧ length y = 1000%nat ∧
    Spec.constant 0 t ∧ Spec.constant (1 # 4) x ∧ Spec.constant (3 # 4) y.
Proof.
  apply (club_zero_horizon Club.payoffs Spec.repo_payoff _
           (1 # 4) (3 # 4) 0); [table | fields | lra | lra | reflexivity].
Defined.
